(** * Arklex document loader: crawl, frontier exploration, ranking, chunking

    A shallow embedding of [arklex/utils/loader.py].  Python strings are
    [string]s holding the UTF-8 bytes of the text (on which prefix,
    substring, splitting at an ASCII character and comparison agree with
    Python's operations on code points), [None]-able fields are [option]s,
    dictionaries with string
    keys are [gmap string _] (or association lists where Python's insertion
    order is observable), and everything the loader delegates to a library
    or to the network (the browser, the HTTP client, the tokenizer, the
    document loaders, PageRank, [uuid4], [list(set(..))]) is a field of an
    explicit environment record. *)

From Stdlib Require Import ZArith QArith Ascii String DecimalString DecimalNat DecimalFacts.
From stdpp Require Import base option list strings gmap sorting.

Local Open Scope Z_scope.

(** ** Python string operations used by the loader *)

Module PyStr.

(** [s.startswith(p)] *)
Definition startswith (s p : string) : bool := String.prefix p s.

(** [needle in hay] *)
Fixpoint contains (needle hay : string) : bool :=
  String.prefix needle hay ||
  match hay with
  | EmptyString => false
  | String _ hay' => contains needle hay'
  end.

(** [s.endswith(p)] *)
Fixpoint endswith (s p : string) : bool :=
  String.eqb s p ||
  match s with
  | EmptyString => false
  | String _ s' => endswith s' p
  end.

(** [s.split(c)[0]]: the part of [s] before the first [c]. *)
Fixpoint split_head (c : ascii) (s : string) : string :=
  match s with
  | EmptyString => EmptyString
  | String a s' => if Ascii.eqb a c then EmptyString else String a (split_head c s')
  end.

(** [s.rstrip(c)]: every trailing [c] is removed. *)
Fixpoint rstrip (c : ascii) (s : string) : string :=
  match s with
  | EmptyString => EmptyString
  | String a s' =>
      let r := rstrip c s' in
      if String.eqb r EmptyString && Ascii.eqb a c then EmptyString else String a r
  end.

(** [s.lstrip(c)]: every leading [c] is removed. *)
Fixpoint lstrip (c : ascii) (s : string) : string :=
  match s with
  | EmptyString => EmptyString
  | String a s' => if Ascii.eqb a c then lstrip c s' else s
  end.

(** [c.isspace()] for a character of the ASCII range. *)
Definition isspace (c : ascii) : bool :=
  let n := nat_of_ascii c in
  ((9 <=? n) && (n <=? 13) || (28 <=? n) && (n <=? 32))%nat.

Definition byte_is (n : nat) (c : ascii) : bool := Nat.eqb (nat_of_ascii c) n.

(** The white space of [str.strip()] outside the ASCII range, as encoded in
    two bytes (U+0085, U+00A0) and in three (U+1680, U+2000 to U+200A,
    U+2028, U+2029, U+202F, U+205F, U+3000). *)
Definition unicode_space2 (c d : ascii) : bool :=
  byte_is 194 c && (byte_is 133 d || byte_is 160 d).

Definition unicode_space3 (c d e : ascii) : bool :=
  byte_is 225 c && byte_is 154 d && byte_is 128 e
  || byte_is 226 c && byte_is 128 d
     && ((128 <=? nat_of_ascii e)%nat && (nat_of_ascii e <=? 138)%nat
         || byte_is 168 e || byte_is 169 e || byte_is 175 e)
  || byte_is 226 c && byte_is 129 d && byte_is 159 e
  || byte_is 227 c && byte_is 128 d && byte_is 128 e.

(** [s.strip() == ""]: [s] is made of white space only. *)
Fixpoint blank (s : string) : bool :=
  match s with
  | EmptyString => true
  | String c s1 =>
      if isspace c then blank s1
      else
        match s1 with
        | EmptyString => false
        | String d s2 =>
            if unicode_space2 c d then blank s2
            else
              match s2 with
              | EmptyString => false
              | String e s3 => unicode_space3 c d e && blank s3
              end
        end
  end.

(** Truth value of [s.strip()]: some character of [s] is not white space. *)
Definition strip_nonempty (s : string) : bool := negb (blank s).

(** The line feed character, as a string. *)
Definition newline : string := String (ascii_of_nat 10) EmptyString.

(** [sep.join(l)] *)
Definition join (sep : string) (l : list string) : string := String.concat sep l.

(** [str(i)] for a non-negative integer. *)
Definition str_of_nat (i : nat) : string := NilZero.string_of_uint (Nat.to_uint i).

(** [l[:k]] with Python's treatment of a negative bound. *)
Definition slice_to {A} (l : list A) (k : Z) : list A :=
  if 0 <=? k then take (Z.to_nat k) l
  else take (length l - Z.to_nat (- k)) l.

End PyStr.

(** ** Exceptions *)

Inductive Result (A : Type) : Type :=
| Ok (a : A)
| Raise (msg : string).
Arguments Ok {A} a.
Arguments Raise {A} msg.

Definition bind {A B} (r : Result A) (k : A -> Result B) : Result B :=
  match r with
  | Ok a => k a
  | Raise m => Raise m
  end.

Notation "'let!' x ':=' r 'in' k" := (bind r (fun x => k))
  (at level 10, x name, r at level 100, k at level 200).

(** Monadic left fold: a [for] loop whose body may raise. *)
Fixpoint foldM {A S} (body : S -> A -> Result S) (l : list A) (s : S) : Result S :=
  match l with
  | [] => Ok s
  | a :: l' => let! s' := body s a in foldM body l' s'
  end.

(** ** Data model *)

Inductive SourceType := WEB | FILE | TEXT.

Module DocObject.
Record t := mk { id : string; source : string }.
End DocObject.

Module CrawledObject.
Record t := mk {
  id : string;
  source : string;
  content : option string;
  metadata : gmap string string;
  is_chunk : bool;
  is_error : bool;
  error_message : option string;
  source_type : SourceType;
}.
End CrawledObject.

(** The values a [CrawledObject.to_dict()] dictionary holds. *)
Inductive Value :=
| VStr (s : string)
| VOptStr (s : option string)
| VBool (b : bool)
| VDict (d : gmap string string)
| VSourceType (st : SourceType).

Definition to_dict (r : CrawledObject.t) : gmap string Value :=
  <["id" := VStr (CrawledObject.id r)]>
  (<["source" := VStr (CrawledObject.source r)]>
  (<["content" := VOptStr (CrawledObject.content r)]>
  (<["metadata" := VDict (CrawledObject.metadata r)]>
  (<["is_chunk" := VBool (CrawledObject.is_chunk r)]>
  (<["is_error" := VBool (CrawledObject.is_error r)]>
  (<["error_message" := VOptStr (CrawledObject.error_message r)]>
  (<["source_type" := VSourceType (CrawledObject.source_type r)]> ∅))))))).

(** [data[k]]: a missing key raises [KeyError]. *)
Definition getitem (data : gmap string Value) (k : string) : Result Value :=
  match data !! k with
  | Some v => Ok v
  | None => Raise ("KeyError: " +:+ k)
  end.

Definition from_dict (data : gmap string Value) : Result CrawledObject.t :=
  let! i := getitem data "id" in
  let! s := getitem data "source" in
  let! c := getitem data "content" in
  let! m := getitem data "metadata" in
  let! ch := getitem data "is_chunk" in
  let! e := getitem data "is_error" in
  let! em := getitem data "error_message" in
  let! st := getitem data "source_type" in
  match i, s, c, m, ch, e, em, st with
  | VStr i, VStr s, VOptStr c, VDict m, VBool ch, VBool e, VOptStr em, VSourceType st =>
      Ok (CrawledObject.mk i s c m ch e em st)
  | _, _, _, _, _, _, _, _ => Raise "TypeError"
  end.

(** ** 4.1 Crawler *)

(** What the loader reads off a parsed page: [soup.strings] in document
    order, each with the result of [find_parent("a")] ([None] when the
    string is not inside an anchor, otherwise the anchor's [get("href")],
    itself [None] when the attribute is absent), and the [get_text()] of the
    elements [soup.find_all("title")] returns. *)
Record NavigableString := {
  text : string;
  find_parent_a : option (option string);
}.

Record Soup := {
  strings : list NavigableString;
  titles : list string;
}.

(** The browser session and [urllib.parse.urljoin].  [driver_get] stands for
    [driver.get(url); time.sleep(2); BeautifulSoup(driver.page_source)]: it
    moves the session to a new state and either yields the parsed page or
    raises. *)
Record Browser := {
  driver : Type;
  driver_get : driver -> string -> driver * Result Soup;
  urljoin : string -> option string -> Result string;
}.

(** The metadata literal [{"title": t, "source": s}]. *)
Definition title_source (t s : string) : gmap string string :=
  <["title" := t]> (<["source" := s]> ∅).

(** The visible text of a page (lines 172-183). *)
Definition web_text_step (B : Browser) (src : string)
    (text_list : list string) (s : NavigableString) : Result (list string) :=
  match find_parent_a s with
  | Some a_href =>
      let! href := urljoin B src a_href in
      if PyStr.startswith href src
      then Ok (text_list ++ [text s +:+ " " +:+ href])
      else Ok text_list
  | None =>
      if PyStr.strip_nonempty (text s)
      then Ok (text_list ++ [text s])
      else Ok text_list
  end.

Definition web_text (B : Browser) (src : string) (soup : Soup) : Result string :=
  let! text_list := foldM (web_text_step B src) (strings soup) [] in
  Ok (PyStr.join PyStr.newline text_list).

(** The title loop: the first [<title>], else the default. *)
Definition first_title (default : string) (soup : Soup) : string :=
  match titles soup with
  | t :: _ => t
  | [] => default
  end.

(** The body of the [try] for one locator. *)
Definition crawl_url_try (B : Browser) (page : Result Soup) (url_obj : DocObject.t)
    : Result CrawledObject.t :=
  let! soup := page in
  let! text_output := web_text B (DocObject.source url_obj) soup in
  let title := first_title (DocObject.source url_obj) soup in
  Ok (CrawledObject.mk (DocObject.id url_obj) (DocObject.source url_obj)
        (Some text_output)
        (title_source title (DocObject.source url_obj))
        false false None WEB).

(** The [except] branch for one locator. *)
Definition crawl_url_except (url_obj : DocObject.t) (err : string) : CrawledObject.t :=
  CrawledObject.mk (DocObject.id url_obj) (DocObject.source url_obj)
    None
    (title_source (DocObject.source url_obj) (DocObject.source url_obj))
    false true (Some err) WEB.

(** One iteration of the loop of [crawl_urls]. *)
Definition crawl_urls_step (B : Browser)
    (st : driver B * list CrawledObject.t) (url_obj : DocObject.t)
    : driver B * list CrawledObject.t :=
  let '(d, docs) := st in
  let '(d', page) := driver_get B d (DocObject.source url_obj) in
  match crawl_url_try B page url_obj with
  | Ok doc => (d', docs ++ [doc])
  | Raise err => (d', docs ++ [crawl_url_except url_obj err])
  end.

(** [Loader.crawl_urls], from a started session; the session it leaves is
    the one [driver.quit()] closes. *)
Definition crawl_urls_run (B : Browser) (d : driver B) (url_objects : list DocObject.t)
    : driver B * list CrawledObject.t :=
  foldl (crawl_urls_step B) (d, []) url_objects.

Definition crawl_urls (B : Browser) (d : driver B) (url_objects : list DocObject.t)
    : list CrawledObject.t :=
  snd (crawl_urls_run B d url_objects).

(** [Loader.to_crawled_url_objs]; [uuid4 i] is the [i]-th identifier drawn. *)
Definition to_crawled_url_objs (B : Browser) (d : driver B) (uuid4 : nat -> string)
    (url_list : list string) : list CrawledObject.t :=
  let url_objs := imap (fun i url => DocObject.mk (uuid4 i) url) url_list in
  crawl_urls B d url_objs.

(** ** 4.2 FrontierExplorer *)

(** The network and the hash order seen by [get_all_urls].  [page_links u]
    is the outcome of [requests.get(u)]: [Raise] when the request raises or
    the status is not 200, otherwise, for each [<a>] of the page in document
    order, the outcome of [urljoin(u, link.get("href"))].  [list_of_set l]
    is [list(set(l))]: the elements of [l] without repetition, in the order
    the interpreter's string hashing happens to give. *)
Record Web := {
  page_links : string -> Result (list (Result string));
  list_of_set : list string -> list string;
}.

(** What [list(set(l))] guarantees, whatever the hash order. *)
Definition set_order_ok (f : list string -> list string) : Prop :=
  ∀ l, NoDup (f l) ∧ ∀ x, x ∈ f l ↔ x ∈ l.

Definition kw_list : list string :=
  [".pdf"; ".jpg"; ".png"; ".docx"; ".xlsx"; ".pptx"; ".zip"; ".jpeg"].

(** [url.split("#")[0].rstrip("/")] *)
Definition normalize (url : string) : string :=
  PyStr.rstrip "/" (PyStr.split_head "#" url).

Definition _check_url (full_url base_url : string) : bool :=
  PyStr.startswith full_url base_url
  && negb (String.eqb full_url "")
  && negb (existsb (fun kw => PyStr.contains kw full_url) kw_list)
  && negb (String.eqb full_url base_url).

(** The loop over the anchors of one page; a link whose processing raises
    is skipped. *)
Definition outsource_step (base_url : string) (new_urls : list string)
    (link : Result string) : list string :=
  match link with
  | Ok joined =>
      let full_url := normalize joined in
      if _check_url full_url base_url then new_urls ++ [full_url] else new_urls
  | Raise _ => new_urls
  end.

Definition get_outsource_urls (W : Web) (curr_url base_url : string) : list string :=
  let new_urls :=
    match page_links W curr_url with
    | Ok links => foldl (outsource_step base_url) [] links
    | Raise _ => []
    end in
  list_of_set W new_urls.

(** The [while] loop of [get_all_urls].  [budget] counts the iterations
    that may still append to [urls_visited]; the loop guard allows at most
    [max_num] of them, so [get_all_urls] starts it at [max_num] and [None]
    (budget exhausted) is never reached. *)
Fixpoint while_urls_to_visit (W : Web) (max_num : Z) (base_url : string)
    (budget : nat) (urls_visited urls_to_visit : list string)
    {struct budget} : option (list string) :=
  (fix iterate (urls_to_visit : list string) : option (list string) :=
     match urls_to_visit with
     | [] => Some urls_visited
     | current_url :: rest =>
         if max_num <=? Z.of_nat (length urls_visited) then Some urls_visited
         else if bool_decide (current_url ∈ urls_visited) then iterate rest
         else
           match budget with
           | O => None
           | S budget' =>
               let new_urls := get_outsource_urls W current_url base_url in
               while_urls_to_visit W max_num base_url budget'
                 (urls_visited ++ [current_url])
                 (list_of_set W (rest ++ new_urls))
           end
     end) urls_to_visit.

(** [sorted(l)] on strings. *)
Definition sorted (l : list string) : list string := merge_sort String.le l.

Definition get_all_urls (W : Web) (base_url : string) (max_num : Z)
    : option (list string) :=
  let base_url := normalize base_url in
  urls_visited ← while_urls_to_visit W max_num base_url (Z.to_nat max_num)
                   [] [base_url];
  Some (sorted (PyStr.slice_to urls_visited max_num)).

(** ** 4.3 LinkGraphRanker *)

(** A Python [dict] with string keys, in insertion order. *)
Abbreviation odict V := (list (string * V)).

Fixpoint odict_get {V} (d : odict V) (k : string) : option V :=
  match d with
  | [] => None
  | (k', v) :: d' => if String.eqb k' k then Some v else odict_get d' k
  end.

(** [d[k] = v]: an existing key keeps its position. *)
Fixpoint odict_set {V} (d : odict V) (k : string) (v : V) : odict V :=
  match d with
  | [] => [(k, v)]
  | (k', v') :: d' =>
      if String.eqb k' k then (k, v) :: d' else (k', v') :: odict_set d' k v
  end.

Definition odict_keys {V} (d : odict V) : list string := d.*1.

(** The part of [networkx.DiGraph] the ranker uses: the node dictionary
    (node to attribute dictionary) and the edges. *)
Record DiGraph := {
  nodes : odict (gmap string Value);
  edges : list (string * string);
}.

Definition empty_graph : DiGraph := {| nodes := []; edges := [] |}.

(** One step of [add_nodes_from]: a new node gets a fresh attribute
    dictionary, and the attributes given are merged into it. *)
Definition add_node (g : DiGraph) (n : string * gmap string Value) : DiGraph :=
  let attrs := default ∅ (odict_get (nodes g) n.1) in
  {| nodes := odict_set (nodes g) n.1 (n.2 ∪ attrs); edges := edges g |}.

Definition add_nodes_from (g : DiGraph) (ns : list (string * gmap string Value)) : DiGraph :=
  foldl add_node g ns.

(** One step of [add_edges_from]: endpoints missing from the graph become
    nodes with no attributes. *)
Definition touch_node (ns : odict (gmap string Value)) (n : string) : odict (gmap string Value) :=
  match odict_get ns n with
  | Some _ => ns
  | None => ns ++ [(n, ∅)]
  end.

Definition add_edge (g : DiGraph) (e : string * string) : DiGraph :=
  {| nodes := touch_node (touch_node (nodes g) e.1) e.2;
     edges := if bool_decide (e ∈ edges g) then edges g else edges g ++ [e] |}.

Definition add_edges_from (g : DiGraph) (es : list (string * string)) : DiGraph :=
  foldl add_edge g es.

(** The first loop: source to id, later records overwriting earlier ones. *)
Definition url_to_id_mapping (urls : list CrawledObject.t) : odict string :=
  foldl (fun m url => odict_set m (CrawledObject.source url) (CrawledObject.id url)) [] urls.

(** [url_key in url.content]; a [None] content raises. *)
Definition key_in_content (url_key : string) (c : option string) : Result bool :=
  match c with
  | Some text => Ok (PyStr.contains url_key text)
  | None => Raise "TypeError: argument of type 'NoneType' is not iterable"
  end.

(** The second loop, one record. *)
Definition collect_step (mapping : odict string)
    (st : list (string * gmap string Value) * list (string * string))
    (url : CrawledObject.t)
    : Result (list (string * gmap string Value) * list (string * string)) :=
  let '(nodes, edges) := st in
  if CrawledObject.is_error url then Ok (nodes, edges)
  else
    let! edges' :=
      foldM (fun edges kv =>
               let! hit := key_in_content kv.1 (CrawledObject.content url) in
               Ok (if hit then edges ++ [(CrawledObject.id url, kv.2)] else edges))
            mapping edges in
    Ok (nodes ++ [(CrawledObject.id url, to_dict url)], edges').

(** Lines 328-347: the graph [get_candidates_websites] stores in [self.graph]. *)
Definition build_graph (urls : list CrawledObject.t) : Result DiGraph :=
  let mapping := url_to_id_mapping urls in
  let! ne := foldM (collect_step mapping) urls ([], []) in
  Ok (add_edges_from (add_nodes_from empty_graph ne.1) ne.2).

(** [sorted(items, key=lambda x: x[1], reverse=True)]: stable, descending.
    The scores are floats; finite floats are rationals and compare as such. *)
Fixpoint insert_desc (x : string * Q) (l : list (string * Q)) : list (string * Q) :=
  match l with
  | [] => [x]
  | y :: l' => if Qle_bool y.2 x.2 then x :: l else y :: insert_desc x l'
  end.

Definition sorted_desc (l : list (string * Q)) : list (string * Q) :=
  foldr insert_desc [] l.

(** [self.graph.nodes[url_id]] *)
Definition node_data (g : DiGraph) (url_id : string) : Result (gmap string Value) :=
  match odict_get (nodes g) url_id with
  | Some d => Ok d
  | None => Raise ("KeyError: " +:+ url_id)
  end.

(** [[CrawledObject.from_dict(doc) for doc in urls_candidates if doc]] *)
Definition clean_step (acc : list CrawledObject.t) (doc : gmap string Value)
    : Result (list CrawledObject.t) :=
  if bool_decide (doc = ∅) then Ok acc
  else let! r := from_dict doc in Ok (acc ++ [r]).

(** [Loader.get_candidates_websites]; [pagerank] is [nx.pagerank(_, alpha=0.9)]:
    it gives the scores, listed in the order of [pr.items()], or raises (the
    power iteration stops with [PowerIterationFailedConvergence] when it has
    not converged after its 100 iterations), and nothing catches that. *)
Definition get_candidates_websites (pagerank : DiGraph -> Result (odict Q))
    (urls : list CrawledObject.t) (top_k : Z) : Result (list CrawledObject.t) :=
  let! graph := build_graph urls in
  let! pr := pagerank graph in
  let sorted_pr := sorted_desc pr in
  let top_k_websites := PyStr.slice_to sorted_pr top_k in
  let! urls_candidates :=
    foldM (fun acc kv => let! d := node_data graph kv.1 in Ok (acc ++ [d]))
          top_k_websites [] in
  foldM clean_step urls_candidates [].

(** ** 4.5 Loader: text and local files *)

(** [Loader.to_crawled_text]; [uuid4 i] is the [i]-th identifier drawn. *)
Definition to_crawled_text (uuid4 : nat -> string) (text_list : list string)
    : list CrawledObject.t :=
  foldl (fun crawled_local_objs it =>
           crawled_local_objs ++
             [CrawledObject.mk (uuid4 it.1) "text" (Some it.2) ∅ false false None TEXT])
        [] (imap pair text_list).

(** The document loaders of [langchain_community] that [crawl_file] picks. *)
Inductive LoaderKind :=
| PyPDFLoader
| UnstructuredWordDocumentLoader
| UnstructuredExcelLoader
| TextLoader
| UnstructuredMarkdownLoader
| UnstructuredPowerPointLoader.

(** The file system, [pathlib] and the extraction services behind
    [crawl_file].  [ocr_document] is the Mistral upload, signed URL and OCR
    call, [ocr_image] the OCR call on the encoded image; both give the
    markdown of the pages.  [read_html] opens and parses the file.
    [loader_load k p] gives the [page_content] of the documents
    [loader.load()] returns. *)
Record FileSystem := {
  MISTRAL_API_KEY : option string;
  path_suffix : string -> string;
  path_name : string -> string;
  path_str : string -> string;
  ocr_document : string -> string -> Result (list string);
  ocr_image : string -> string -> Result (list string);
  read_html : string -> Result Soup;
  loader_load : LoaderKind -> string -> Result (list string);
}.

Definition in_list (x : string) (l : list string) : bool :=
  existsb (String.eqb x) l.

(** [MISTRAL_API_KEY is not None and MISTRAL_API_KEY != "<your-mistral-api-key>"] *)
Definition mistral_configured (F : FileSystem) : bool :=
  match MISTRAL_API_KEY F with
  | Some k => negb (String.eqb k "<your-mistral-api-key>")
  | None => false
  end.

(** The text of a local HTML file (lines 470-478): the raw [href] is
    formatted into the line, [None] printing as ["None"]. *)
Definition html_text_step (text_list : list string) (s : NavigableString) : list string :=
  match find_parent_a s with
  | Some href => text_list ++ [text s +:+ " " +:+ default "None" href]
  | None => if PyStr.strip_nonempty (text s) then text_list ++ [text s] else text_list
  end.

Definition select_loader (file_type : string) : Result LoaderKind :=
  if String.eqb file_type "pdf" then Ok PyPDFLoader
  else if String.eqb file_type "doc" || String.eqb file_type "docx"
  then Ok UnstructuredWordDocumentLoader
  else if String.eqb file_type "xlsx" || String.eqb file_type "xls"
  then Ok UnstructuredExcelLoader
  else if String.eqb file_type "txt" then Ok TextLoader
  else if String.eqb file_type "md" then Ok UnstructuredMarkdownLoader
  else if String.eqb file_type "pptx" || String.eqb file_type "ppt"
  then Ok UnstructuredPowerPointLoader
  else Raise "Unsupported file type. If you are trying to upload a pdf, make sure it is less than 50MB. Images are only supported with the advanced parser.".

(** The record every successful branch returns. *)
Definition file_record (local_obj : DocObject.t) (doc_text title : string) : CrawledObject.t :=
  CrawledObject.mk (DocObject.id local_obj) (DocObject.source local_obj)
    (Some doc_text)
    (title_source title (DocObject.source local_obj))
    false false None FILE.

(** The body of the [try] of [crawl_file]. *)
Definition crawl_file_try (F : FileSystem) (local_obj : DocObject.t) : Result CrawledObject.t :=
  let file_path := DocObject.source local_obj in
  let file_type := PyStr.lstrip "." (path_suffix F file_path) in
  let file_name := path_name F file_path in
  if String.eqb file_type "" then
    Raise ("No file type detected for file: " +:+ path_str F file_path)
  else if in_list file_type ["pdf"; "png"; "jpg"; "jpeg"; "pptx"; "ppt"]
          && mistral_configured F then
    let! pages :=
      if in_list file_type ["pdf"; "pptx"; "ppt"]
      then ocr_document F file_name file_path
      else ocr_image F file_type file_path in
    let doc_text := foldl (fun doc_text page => doc_text +:+ page) "" pages in
    Ok (file_record local_obj doc_text file_name)
  else if String.eqb file_type "html" then
    let! soup := read_html F file_path in
    let text_list := foldl html_text_step [] (strings soup) in
    let doc_text := PyStr.join PyStr.newline text_list in
    let title := first_title file_name soup in
    Ok (file_record local_obj doc_text title)
  else
    let! loader := select_loader file_type in
    let! documents := loader_load F loader file_path in
    let doc_text := PyStr.join PyStr.newline documents in
    Ok (file_record local_obj doc_text file_name).

(** [Loader.crawl_file]: the [try] and its [except]. *)
Definition crawl_file (F : FileSystem) (local_obj : DocObject.t) : CrawledObject.t :=
  match crawl_file_try F local_obj with
  | Ok doc => doc
  | Raise err_msg =>
      CrawledObject.mk (DocObject.id local_obj) (DocObject.source local_obj)
        None
        (<["title" := path_name F (DocObject.source local_obj)]> ∅)
        false true (Some err_msg) FILE
  end.

(** [Loader.to_crawled_local_objs] *)
Definition to_crawled_local_objs (F : FileSystem) (uuid4 : nat -> string)
    (file_list : list string) : list CrawledObject.t :=
  let local_objs := imap (fun i file => DocObject.mk (uuid4 i) file) file_list in
  map (crawl_file F) local_objs.

(** ** 4.4 Chunker *)

(** [langchain_core.documents.Document] *)
Record Document := {
  page_content : string;
  doc_metadata : gmap string string;
}.

(** The record built for piece [i] of [doc_obj] (lines 584-591). *)
Definition chunk_record (doc_obj : CrawledObject.t) (i : nat) (txt : string) : CrawledObject.t :=
  CrawledObject.mk
    (CrawledObject.id doc_obj +:+ "_" +:+ PyStr.str_of_nat i)
    (CrawledObject.source doc_obj)
    (Some txt)
    (CrawledObject.metadata doc_obj)
    true false None
    (CrawledObject.source_type doc_obj).

(** The document built for a piece of [doc_obj] (line 594). *)
Definition chunk_document (doc_obj : CrawledObject.t) (txt : string) : Document :=
  {| page_content := txt;
     doc_metadata := <["source" := CrawledObject.source doc_obj]> ∅ |}.

(** The inner loop over [enumerate(splitted_text)]. *)
Definition chunk_piece (doc_obj : CrawledObject.t)
    (st : list CrawledObject.t * list Document) (it : nat * string)
    : list CrawledObject.t * list Document :=
  (st.1 ++ [chunk_record doc_obj it.1 it.2],
   st.2 ++ [chunk_document doc_obj it.2]).

(** One iteration of the outer loop; the state is [(docs, langchain_docs)]. *)
Definition chunk_step (split_text : string -> list string)
    (st : list CrawledObject.t * list Document) (doc_obj : CrawledObject.t)
    : list CrawledObject.t * list Document :=
  match CrawledObject.is_error doc_obj, CrawledObject.content doc_obj with
  | true, _ | _, None => st
  | false, Some c =>
      if CrawledObject.is_chunk doc_obj then (st.1 ++ [doc_obj], st.2)
      else foldl (chunk_piece doc_obj) st (imap pair (split_text c))
  end.

(** The two lists as they stand when the loop of [chunk] ends. *)
Definition chunk_run (split_text : string -> list string)
    (doc_objs : list CrawledObject.t) : list CrawledObject.t * list Document :=
  foldl (chunk_step split_text) ([], []) doc_objs.

(** The list [docs] of [chunk]: the records it keeps or creates. *)
Definition chunk_docs (split_text : string -> list string)
    (doc_objs : list CrawledObject.t) : list CrawledObject.t :=
  (chunk_run split_text doc_objs).1.

(** [Loader.chunk]: it returns [langchain_docs]. *)
Definition chunk (split_text : string -> list string)
    (doc_objs : list CrawledObject.t) : list Document :=
  (chunk_run split_text doc_objs).2.

(** * Properties *)

(** ** Chunker *)

Section chunker.
Context (split_text : string -> list string).

Lemma foldl_chunk_piece doc_obj st its :
  foldl (chunk_piece doc_obj) st its =
  (st.1 ++ map (fun it => chunk_record doc_obj it.1 it.2) its,
   st.2 ++ map (fun it => chunk_document doc_obj it.2) its).
Proof.
  revert st. induction its as [|it its IH]; intros [docs lc]; simpl.
  - by rewrite !app_nil_r.
  - rewrite IH. simpl. by rewrite <- !app_assoc.
Qed.

Lemma chunk_step_app st doc_obj :
  chunk_step split_text st doc_obj =
  (st.1 ++ (chunk_step split_text ([], []) doc_obj).1,
   st.2 ++ (chunk_step split_text ([], []) doc_obj).2).
Proof.
  destruct st as [docs lc]. unfold chunk_step.
  destruct (CrawledObject.is_error doc_obj), (CrawledObject.content doc_obj);
    simpl; rewrite ?app_nil_r; try done.
  destruct (CrawledObject.is_chunk doc_obj); simpl.
  - by rewrite app_nil_r.
  - by rewrite !foldl_chunk_piece.
Qed.

Lemma foldl_chunk_step st doc_objs :
  foldl (chunk_step split_text) st doc_objs =
  (st.1 ++ chunk_docs split_text doc_objs, st.2 ++ chunk split_text doc_objs).
Proof.
  unfold chunk_docs, chunk, chunk_run.
  induction doc_objs as [|d l IH] using rev_ind; simpl.
  - destruct st. by rewrite !app_nil_r.
  - rewrite !foldl_app. simpl. rewrite IH.
    rewrite chunk_step_app. simpl.
    rewrite (chunk_step_app (foldl _ _ l)). simpl.
    by rewrite !app_assoc.
Qed.

Lemma chunk_run_cons d l :
  chunk_run split_text (d :: l) =
  ((chunk_step split_text ([], []) d).1 ++ chunk_docs split_text l,
   (chunk_step split_text ([], []) d).2 ++ chunk split_text l).
Proof. unfold chunk_run at 1. simpl. by rewrite foldl_chunk_step. Qed.

Lemma chunk_docs_app l1 l2 :
  chunk_docs split_text (l1 ++ l2) = chunk_docs split_text l1 ++ chunk_docs split_text l2.
Proof.
  unfold chunk_docs at 1, chunk_run. rewrite foldl_app, foldl_chunk_step.
  done.
Qed.

Lemma chunk_app l1 l2 :
  chunk split_text (l1 ++ l2) = chunk split_text l1 ++ chunk split_text l2.
Proof.
  unfold chunk at 1, chunk_run. rewrite foldl_app, foldl_chunk_step.
  done.
Qed.

Lemma chunk_docs_cons d l :
  chunk_docs split_text (d :: l) =
  (chunk_step split_text ([], []) d).1 ++ chunk_docs split_text l.
Proof. unfold chunk_docs at 1. by rewrite chunk_run_cons. Qed.

Lemma chunk_cons d l :
  chunk split_text (d :: l) =
  (chunk_step split_text ([], []) d).2 ++ chunk split_text l.
Proof. unfold chunk at 1. by rewrite chunk_run_cons. Qed.

(** A record the loop keeps as it is. *)
Definition kept (r : CrawledObject.t) : Prop :=
  CrawledObject.is_error r = false ∧ CrawledObject.content r ≠ None ∧
  CrawledObject.is_chunk r = true.

Lemma chunk_step_kept r :
  kept r → chunk_step split_text ([], []) r = ([r], []).
Proof.
  intros (He & Hc & Hk). unfold chunk_step. rewrite He, Hk.
  by destruct (CrawledObject.content r).
Qed.

Lemma chunk_step_docs_kept d r :
  r ∈ (chunk_step split_text ([], []) d).1 → kept r.
Proof.
  unfold chunk_step.
  destruct (CrawledObject.is_error d) eqn:He, (CrawledObject.content d) as [c|] eqn:Hc;
    simpl; try by intros ?%elem_of_nil.
  destruct (CrawledObject.is_chunk d) eqn:Hk; simpl.
  - intros ->%list_elem_of_singleton. split_and!; congruence.
  - rewrite foldl_chunk_piece. simpl.
    intros (it & -> & _)%list_elem_of_fmap. done.
Qed.

Lemma chunk_docs_kept l r : r ∈ chunk_docs split_text l → kept r.
Proof.
  induction l as [|d l IH]; [by intros ?%elem_of_nil|].
  rewrite chunk_docs_cons. intros [?|?]%elem_of_app; eauto using chunk_step_docs_kept.
Qed.

Lemma chunk_docs_all_kept l :
  Forall kept l → chunk_docs split_text l = l ∧ chunk split_text l = [].
Proof.
  induction 1 as [|r l Hr _ [IH1 IH2]]; [done|].
  rewrite chunk_docs_cons, chunk_cons, chunk_step_kept, IH1, IH2; done.
Qed.

End chunker.

Lemma str_of_nat_inj i j : PyStr.str_of_nat i = PyStr.str_of_nat j → i = j.
Proof.
  unfold PyStr.str_of_nat. intros Heq.
  assert (Hnn : ∀ n, Nat.to_uint n ≠ Decimal.Nil).
  { intros n. rewrite <- (DecimalNat.Unsigned.of_to n) at 1.
    rewrite DecimalNat.Unsigned.to_of. apply DecimalFacts.unorm_nonnil. }
  apply DecimalNat.Unsigned.to_uint_inj.
  assert (Hs : Some (Nat.to_uint i) = Some (Nat.to_uint j)); [|congruence].
  rewrite <- (NilZero.usu _ (Hnn i)), <- (NilZero.usu _ (Hnn j)).
  by rewrite Heq.
Qed.

Lemma chunk_record_id_inj d i j txt txt' :
  CrawledObject.id (chunk_record d i txt) = CrawledObject.id (chunk_record d j txt') →
  i = j.
Proof.
  simpl. intros H. apply str_of_nat_inj.
  by do 2 apply (inj (String.app _)) in H.
Qed.

Lemma NoDup_chunk_ids d (pieces : list string) :
  NoDup (CrawledObject.id <$> imap (chunk_record d) pieces).
Proof.
  apply NoDup_alt. intros i j x Hi Hj.
  rewrite list_lookup_fmap, list_lookup_imap in Hi, Hj.
  destruct (pieces !! i) as [ti|], (pieces !! j) as [tj|]; simplify_eq/=.
  apply (chunk_record_id_inj d i j ti tj). simpl. congruence.
Qed.

Lemma imap_pair_fmap {A B} (f : nat → A → B) (l : list A) :
  map (fun it => f it.1 it.2) (imap pair l) = imap f l.
Proof.
  apply list_eq. intros i.
  change (map ?g ?k) with (g <$> k).
  rewrite list_lookup_fmap, !list_lookup_imap.
  by destruct (l !! i).
Qed.

(** What the loop does with a record it splits. *)
Lemma chunk_step_split split_text parent c :
  CrawledObject.is_error parent = false →
  CrawledObject.content parent = Some c →
  CrawledObject.is_chunk parent = false →
  chunk_step split_text ([], []) parent =
  (imap (chunk_record parent) (split_text c),
   chunk_document parent <$> split_text c).
Proof.
  intros He Hc Hk. unfold chunk_step. rewrite He, Hc, Hk.
  rewrite foldl_chunk_piece. simpl. f_equal.
  - apply (imap_pair_fmap (chunk_record parent)).
  - apply list_eq. intros i.
    change (map ?g ?k) with (g <$> k).
    rewrite !list_lookup_fmap, list_lookup_imap.
    by destruct (split_text c !! i).
Qed.

(** The records [chunk] creates, in its local list [docs].  A non-error,
    non-chunk record with content [c] that stands anywhere in the input
    contributes to [docs], in place, one record per piece of
    [split_text c]: piece [i] (counted from 0) becomes the record with id
    [parent_id ++ "_" ++ str(i)], [is_chunk = True], the parent's source,
    metadata and source type, no error, and the piece as content; there are
    exactly as many as pieces, and their ids are pairwise distinct.  The
    list [chunk] returns gets, at the same place, the documents of the same
    pieces in the same order. *)
Theorem chunk_ids_contiguous
    (split_text : string -> list string)
    (before after : list CrawledObject.t) (parent : CrawledObject.t) (c : string) :
  CrawledObject.is_error parent = false →
  CrawledObject.content parent = Some c →
  CrawledObject.is_chunk parent = false →
  ∃ out : list CrawledObject.t,
    chunk_docs split_text (before ++ parent :: after) =
      chunk_docs split_text before ++ out ++ chunk_docs split_text after
    ∧ length out = length (split_text c)
    ∧ (∀ (i : nat) (txt : string), split_text c !! i = Some txt →
         out !! i = Some
           (CrawledObject.mk
              (CrawledObject.id parent +:+ "_" +:+ PyStr.str_of_nat i)
              (CrawledObject.source parent)
              (Some txt)
              (CrawledObject.metadata parent)
              true false None
              (CrawledObject.source_type parent)))
    ∧ NoDup (CrawledObject.id <$> out)
    ∧ chunk split_text (before ++ parent :: after) =
        chunk split_text before
        ++ (chunk_document parent <$> split_text c)
        ++ chunk split_text after.
Proof.
  intros He Hc Hk.
  exists (imap (chunk_record parent) (split_text c)).
  split_and!.
  - rewrite chunk_docs_app, chunk_docs_cons.
    by rewrite (chunk_step_split _ _ c).
  - apply length_imap.
  - intros i txt Hi. rewrite list_lookup_imap, Hi. done.
  - apply NoDup_chunk_ids.
  - rewrite chunk_app, chunk_cons.
    by rewrite (chunk_step_split _ _ c).
Qed.

(** A tokenizer stand-in for the examples: pieces of at most three characters
    are not what the real splitter gives, but any function will do. *)
Definition split_in_three (s : string) : list string :=
  [String.substring 0 3 s; String.substring 3 3 s; String.substring 6 3 s].

Definition doc1 : CrawledObject.t :=
  CrawledObject.mk "doc1" "http://a.test" (Some "abcdefghi")
    (title_source "A" "http://a.test") false false None WEB.

Lemma chunk_ids_contiguous_witness :
  ∃ out : list CrawledObject.t,
    chunk_docs split_in_three ([] ++ doc1 :: []) =
      chunk_docs split_in_three [] ++ out ++ chunk_docs split_in_three []
    ∧ length out = length (split_in_three "abcdefghi")
    ∧ (∀ (i : nat) (txt : string), split_in_three "abcdefghi" !! i = Some txt →
         out !! i = Some
           (CrawledObject.mk
              (CrawledObject.id doc1 +:+ "_" +:+ PyStr.str_of_nat i)
              (CrawledObject.source doc1)
              (Some txt)
              (CrawledObject.metadata doc1)
              true false None
              (CrawledObject.source_type doc1)))
    ∧ NoDup (CrawledObject.id <$> out)
    ∧ chunk split_in_three ([] ++ doc1 :: []) =
        chunk split_in_three []
        ++ (chunk_document doc1 <$> split_in_three "abcdefghi")
        ++ chunk split_in_three [].
Proof.
  apply (chunk_ids_contiguous split_in_three [] [] doc1 "abcdefghi");
    reflexivity.
Defined.

Example chunk_doc1_ids :
  CrawledObject.id <$> chunk_docs split_in_three [doc1] = ["doc1_0"; "doc1_1"; "doc1_2"].
Proof. reflexivity. Qed.

(** The two lists of [chunk] and the records it does not split.  A record
    with [is_error] set or with no content
    leaves both lists of [chunk] as they were.  A record already marked
    [is_chunk] (not an error, with content) is appended unchanged, in place,
    to the record list [docs], is not split, and adds nothing to the list
    [chunk] returns.  Running the loop again on [docs] gives [docs] again and
    an empty return value. *)
Theorem chunk_keeps_chunks_in_docs (split_text : string -> list string) :
  (∀ before r after,
     CrawledObject.is_error r = true ∨ CrawledObject.content r = None →
     chunk_run split_text (before ++ r :: after) = chunk_run split_text (before ++ after))
  ∧ (∀ before r after,
       CrawledObject.is_chunk r = true →
       CrawledObject.is_error r = false →
       CrawledObject.content r ≠ None →
       chunk_docs split_text (before ++ r :: after) =
         chunk_docs split_text before ++ r :: chunk_docs split_text after
       ∧ chunk split_text (before ++ r :: after) =
           chunk split_text before ++ chunk split_text after)
  ∧ (∀ doc_objs,
       chunk_docs split_text (chunk_docs split_text doc_objs) = chunk_docs split_text doc_objs
       ∧ chunk split_text (chunk_docs split_text doc_objs) = []).
Proof.
  split_and!.
  - intros before r after Hdrop.
    assert (Hstep : chunk_step split_text ([], []) r = ([], [])).
    { unfold chunk_step. destruct Hdrop as [-> | ->]; [done|].
      by destruct (CrawledObject.is_error r). }
    unfold chunk_run. rewrite !foldl_app. simpl.
    rewrite (chunk_step_app _ (foldl _ _ before)), Hstep. simpl.
    rewrite !app_nil_r. by destruct (foldl _ _ before).
  - intros before r after Hk He Hc.
    rewrite chunk_docs_app, chunk_app, chunk_docs_cons, chunk_cons.
    by rewrite chunk_step_kept.
  - intros doc_objs. apply chunk_docs_all_kept.
    apply Forall_forall. intros r. apply chunk_docs_kept.
Qed.

Definition already_chunked : CrawledObject.t :=
  CrawledObject.mk "doc1_0" "http://a.test" (Some "abc")
    (title_source "A" "http://a.test") true false None WEB.

(** C2, on the code.  For an input of one record marked [is_chunk] (no
    error, content present) the loop appends the record to [docs], the list
    of records the docstring and the annotation of [chunk] announce, and
    [chunk] returns [langchain_docs], which is empty: the record is not in
    the output in any form. *)
Lemma chunk_drops_chunk_from_return :
  CrawledObject.is_chunk already_chunked = true
  ∧ CrawledObject.is_error already_chunked = false
  ∧ CrawledObject.content already_chunked = Some "abc"
  ∧ chunk split_in_three [already_chunked] = []
  ∧ chunk_docs split_in_three [already_chunked] = [already_chunked].
Proof. split_and!; reflexivity. Qed.


(** ** Crawler *)

Section crawler.
Context (B : Browser).

Lemma crawl_urls_step_app d docs url_obj :
  crawl_urls_step B (d, docs) url_obj =
  ((crawl_urls_step B (d, []) url_obj).1,
   docs ++ (crawl_urls_step B (d, []) url_obj).2).
Proof.
  unfold crawl_urls_step.
  destruct (driver_get B d (DocObject.source url_obj)) as [d' page].
  by destruct (crawl_url_try B page url_obj).
Qed.

Lemma foldl_crawl_urls_step d docs url_objects :
  foldl (crawl_urls_step B) (d, docs) url_objects =
  ((crawl_urls_run B d url_objects).1, docs ++ crawl_urls B d url_objects).
Proof.
  unfold crawl_urls, crawl_urls_run.
  revert d docs. induction url_objects as [|o l IH]; intros d docs; cbn [foldl].
  - simpl. by rewrite app_nil_r.
  - rewrite crawl_urls_step_app.
    destruct (crawl_urls_step B (d, []) o) as [d1 docs1] eqn:Hstep.
    cbn [fst snd]. rewrite IH, (IH d1 docs1). cbn [fst snd].
    by rewrite app_assoc.
Qed.

(** The record the loop appends for [url_obj] when the session is [d]. *)
Definition crawled (d : driver B) (url_obj : DocObject.t) : CrawledObject.t :=
  match crawl_url_try B (driver_get B d (DocObject.source url_obj)).2 url_obj with
  | Ok doc => doc
  | Raise err => crawl_url_except url_obj err
  end.

Lemma crawl_urls_step_crawled d url_obj :
  crawl_urls_step B (d, []) url_obj =
  ((driver_get B d (DocObject.source url_obj)).1, [crawled d url_obj]).
Proof.
  unfold crawl_urls_step, crawled.
  destruct (driver_get B d (DocObject.source url_obj)) as [d' page]. simpl.
  by destruct (crawl_url_try B page url_obj).
Qed.

Lemma crawl_urls_cons d o l :
  crawl_urls B d (o :: l) =
  crawled d o :: crawl_urls B (driver_get B d (DocObject.source o)).1 l.
Proof.
  unfold crawl_urls at 1, crawl_urls_run. cbn [foldl].
  rewrite crawl_urls_step_crawled, foldl_crawl_urls_step. done.
Qed.

Lemma crawl_urls_run_cons d o l :
  (crawl_urls_run B d (o :: l)).1 =
  (crawl_urls_run B (driver_get B d (DocObject.source o)).1 l).1.
Proof.
  unfold crawl_urls_run at 1. cbn [foldl].
  rewrite crawl_urls_step_crawled, foldl_crawl_urls_step. done.
Qed.


Lemma crawl_urls_length d l : length (crawl_urls B d l) = length l.
Proof.
  revert d. induction l as [|o l IH]; intros d; [done|].
  rewrite crawl_urls_cons. simpl. by rewrite IH.
Qed.

Lemma crawl_urls_lookup d l i o :
  l !! i = Some o →
  crawl_urls B d l !! i = Some (crawled (crawl_urls_run B d (take i l)).1 o).
Proof.
  revert d i. induction l as [|o' l IH]; intros d i Hi; [done|].
  rewrite crawl_urls_cons. destruct i as [|i].
  - simpl in *. by simplify_eq.
  - cbn [lookup list_lookup take] in *. rewrite (IH _ _ Hi).
    by rewrite crawl_urls_run_cons.
Qed.

Lemma crawl_url_try_ok page url_obj doc :
  crawl_url_try B page url_obj = Ok doc →
  ∃ soup text_output,
    page = Ok soup
    ∧ web_text B (DocObject.source url_obj) soup = Ok text_output
    ∧ doc = CrawledObject.mk (DocObject.id url_obj) (DocObject.source url_obj)
              (Some text_output)
              (title_source (first_title (DocObject.source url_obj) soup)
                            (DocObject.source url_obj))
              false false None WEB.
Proof.
  unfold crawl_url_try. destruct page as [soup|]; simpl; [|done].
  destruct (web_text B (DocObject.source url_obj) soup) as [t|] eqn:Hw;
    simpl; [|done].
  intros [= <-]. by exists soup, t.
Qed.

End crawler.


(** *** The visible text and the title of a page *)

(** The lines one string of the page contributes, given the URL [resolve a]
    that [urljoin] gives for the anchor around it. *)
Definition visible_line (resolve : option string -> string) (src : string)
    (s : NavigableString) : list string :=
  match find_parent_a s with
  | Some a =>
      if PyStr.startswith (resolve a) src
      then [text s +:+ " " +:+ resolve a] else []
  | None => if PyStr.strip_nonempty (text s) then [text s] else []
  end.

Definition visible_lines (resolve : option string -> string) (src : string)
    (ss : list NavigableString) : list string :=
  ss ≫= visible_line resolve src.

Lemma foldM_web_text_step B resolve src ss acc :
  (∀ s a, s ∈ ss → find_parent_a s = Some a → urljoin B src a = Ok (resolve a)) →
  foldM (web_text_step B src) ss acc = Ok (acc ++ visible_lines resolve src ss).
Proof.
  revert acc. induction ss as [|s ss IH]; intros acc Hres; simpl.
  - by rewrite app_nil_r.
  - assert (Hstep : web_text_step B src acc s = Ok (acc ++ visible_line resolve src s)).
    { unfold web_text_step, visible_line.
      destruct (find_parent_a s) as [a|] eqn:Ha.
      - rewrite (Hres s a); [|left|done]. simpl.
        destruct (PyStr.startswith _ _); by rewrite ?app_nil_r.
      - destruct (PyStr.strip_nonempty _); by rewrite ?app_nil_r. }
    rewrite Hstep. simpl. rewrite IH.
    + unfold visible_lines. simpl. by rewrite app_assoc.
    + intros s' a Hs'. apply Hres. by right.
Qed.

(** C9, as the code has it.  When the page loads and every anchor's href
    resolves, the content of the record is the lines of the page joined by
    line feeds, where an anchor-linked string gives the line "string URL"
    only if the resolved URL starts with the page's own source URL (and no
    line otherwise), and any other string gives itself as a line unless it
    is blank; the title is the text of the first title element, or the
    source URL when there is none. *)
Theorem crawl_url_text_and_title
    (B : Browser) (resolve : option string -> string)
    (url_obj : DocObject.t) (soup : Soup) :
  (∀ s a, s ∈ strings soup → find_parent_a s = Some a →
          urljoin B (DocObject.source url_obj) a = Ok (resolve a)) →
  ∃ doc : CrawledObject.t,
    crawl_url_try B (Ok soup) url_obj = Ok doc
    ∧ CrawledObject.is_error doc = false
    ∧ CrawledObject.content doc =
        Some (PyStr.join PyStr.newline
                (visible_lines resolve (DocObject.source url_obj) (strings soup)))
    ∧ CrawledObject.metadata doc !! "title" =
        Some (match titles soup with
              | t :: _ => t
              | [] => DocObject.source url_obj
              end)
    ∧ CrawledObject.metadata doc !! "source" = Some (DocObject.source url_obj).
Proof.
  intros Hres. unfold crawl_url_try, web_text. simpl.
  rewrite (foldM_web_text_step B resolve _ _ [] Hres). simpl.
  eexists. split; [reflexivity|]. simpl.
  split_and!; done.
Qed.

(** A browser for the examples: a fixed table of pages, a session with no
    state, and [urljoin] as it behaves on absolute hrefs (the href itself,
    the base when there is none). *)
Definition table_browser (pages : string -> Result Soup) : Browser :=
  {| driver := unit;
     driver_get := fun d url => (d, pages url);
     urljoin := fun base href => Ok (default base href) |}.

Definition page_a : Soup :=
  {| strings :=
       [ {| text := "Welcome"; find_parent_a := None |};
         {| text := "Home"; find_parent_a := Some (Some "http://a.test/home") |};
         {| text := "Docs"; find_parent_a := Some (Some "http://other.test/docs") |} ];
     titles := ["Site A"; "ignored"] |}.

Definition pages_a (url : string) : Result Soup :=
  if String.eqb url "http://a.test" then Ok page_a
  else Raise "net::ERR_NAME_NOT_RESOLVED".

Definition locator_a : DocObject.t := DocObject.mk "u1" "http://a.test".
Definition locator_b : DocObject.t := DocObject.mk "u2" "http://b.test".

Lemma crawl_url_text_and_title_witness :
  ∃ doc : CrawledObject.t,
    crawl_url_try (table_browser pages_a) (Ok page_a) locator_a = Ok doc
    ∧ CrawledObject.is_error doc = false
    ∧ CrawledObject.content doc =
        Some (PyStr.join PyStr.newline
                (visible_lines (default "http://a.test") (DocObject.source locator_a)
                   (strings page_a)))
    ∧ CrawledObject.metadata doc !! "title" =
        Some (match titles page_a with
              | t :: _ => t
              | [] => DocObject.source locator_a
              end)
    ∧ CrawledObject.metadata doc !! "source" = Some (DocObject.source locator_a).
Proof.
  apply (crawl_url_text_and_title (table_browser pages_a) (default "http://a.test")
           locator_a page_a).
  intros s a _ _. reflexivity.
Defined.

(** C9, as stated, fails: the page at http://a.test has the anchor-linked
    string "Docs" whose href resolves to http://other.test/docs; the crawl
    succeeds, and neither that URL nor the string is in the content. *)
Lemma crawl_url_skips_foreign_anchor :
  ∃ doc : CrawledObject.t,
    crawl_urls (table_browser pages_a) () [locator_a] = [doc]
    ∧ CrawledObject.is_error doc = false
    ∧ CrawledObject.content doc
      = Some ("Welcome" +:+ PyStr.newline +:+ "Home http://a.test/home")
    ∧ (∀ c, CrawledObject.content doc = Some c →
            PyStr.contains "http://other.test/docs" c = false
            ∧ PyStr.contains "Docs" c = false).
Proof.
  eexists. split; [reflexivity|]. simpl.
  split_and!; try reflexivity.
  intros c [= <-]. by vm_compute.
Qed.

(** The scenario of the specification: the second of two locators fails. *)
Example crawl_two_second_fails :
  (λ doc, (CrawledObject.id doc, CrawledObject.is_error doc,
           CrawledObject.content doc, CrawledObject.error_message doc))
    <$> crawl_urls (table_browser pages_a) () [locator_a; locator_b]
  = [ ("u1", false, Some ("Welcome" +:+ PyStr.newline +:+ "Home http://a.test/home"), None);
      ("u2", true, None, Some "net::ERR_NAME_NOT_RESOLVED") ].
Proof. reflexivity. Qed.

(** Strings that [strip()] empties are not lines: a no-break space (U+00A0),
    alone or among other white space, is blank; a letter is not. *)
Definition nbsp : string :=
  String (ascii_of_nat 194) (String (ascii_of_nat 160) EmptyString).

Example strip_unicode_space :
  PyStr.strip_nonempty nbsp = false
  ∧ PyStr.strip_nonempty (" " +:+ nbsp +:+ PyStr.newline) = false
  ∧ PyStr.strip_nonempty (nbsp +:+ "a") = true
  ∧ visible_lines (default "http://a.test") "http://a.test"
      [ {| text := "Hello"; find_parent_a := None |};
        {| text := nbsp; find_parent_a := None |} ]
    = ["Hello"].
Proof. split_and!; reflexivity. Qed.

(** ** Loader: records and their metadata *)

(** The two equivalences of the data model. *)
Definition record_invariant (r : CrawledObject.t) : Prop :=
  (CrawledObject.is_error r = true ↔ CrawledObject.error_message r ≠ None)
  ∧ (CrawledObject.content r = None ↔ CrawledObject.is_error r = true).

Definition has_title_and_source (r : CrawledObject.t) : Prop :=
  is_Some (CrawledObject.metadata r !! "title")
  ∧ is_Some (CrawledObject.metadata r !! "source").

Lemma foldl_snoc_map {A B} (f : A → B) (l : list A) (acc : list B) :
  foldl (fun acc x => acc ++ [f x]) acc l = acc ++ map f l.
Proof.
  revert acc. induction l as [|x l IH]; intros acc; simpl.
  - by rewrite app_nil_r.
  - rewrite IH. by rewrite <- app_assoc.
Qed.

Lemma to_crawled_text_imap uuid4 text_list :
  to_crawled_text uuid4 text_list =
  imap (fun i txt => CrawledObject.mk (uuid4 i) "text" (Some txt) ∅ false false None TEXT)
       text_list.
Proof.
  unfold to_crawled_text.
  rewrite (foldl_snoc_map
             (fun it => CrawledObject.mk (uuid4 it.1) "text" (Some it.2) ∅ false false None TEXT)).
  simpl.
  apply (imap_pair_fmap
           (fun i txt => CrawledObject.mk (uuid4 i) "text" (Some txt) ∅ false false None TEXT)).
Qed.

Lemma elem_of_to_crawled_text uuid4 text_list r :
  r ∈ to_crawled_text uuid4 text_list →
  ∃ i txt, r = CrawledObject.mk (uuid4 i) "text" (Some txt) ∅ false false None TEXT.
Proof.
  rewrite to_crawled_text_imap.
  intros (i & Hi)%list_elem_of_lookup.
  rewrite list_lookup_imap in Hi.
  destruct (text_list !! i) as [txt|]; simplify_eq/=. eauto.
Qed.

Lemma crawled_cases B d url_obj :
  (∃ t title, crawled B d url_obj =
     CrawledObject.mk (DocObject.id url_obj) (DocObject.source url_obj) (Some t)
       (title_source title (DocObject.source url_obj)) false false None WEB)
  ∨ (∃ err, crawled B d url_obj = crawl_url_except url_obj err).
Proof.
  unfold crawled.
  destruct (crawl_url_try B _ url_obj) as [doc|err] eqn:Htry; [left|right; eauto].
  apply crawl_url_try_ok in Htry as (soup & t & _ & _ & ->). eauto.
Qed.

Lemma elem_of_crawl_urls B d url_objects r :
  r ∈ crawl_urls B d url_objects →
  ∃ d' url_obj, url_obj ∈ url_objects ∧ r = crawled B d' url_obj.
Proof.
  intros (i & Hi)%list_elem_of_lookup.
  destruct (url_objects !! i) as [o|] eqn:Ho.
  - rewrite (crawl_urls_lookup B d _ _ _ Ho) in Hi. simplify_eq.
    eexists _, o. split; [|done]. by eapply list_elem_of_lookup_2.
  - apply lookup_ge_None in Ho. apply lookup_lt_Some in Hi.
    rewrite crawl_urls_length in Hi. lia.
Qed.

Lemma crawl_file_try_ok F local_obj doc :
  crawl_file_try F local_obj = Ok doc →
  ∃ doc_text title, doc = file_record local_obj doc_text title.
Proof.
  unfold crawl_file_try.
  repeat match goal with
  | |- context [if ?b then _ else _] => destruct b
  | |- context [bind ?r _] => destruct r; simpl
  end; intros; simplify_eq; eauto.
Qed.

(** C5.  Every record [crawl_urls], [crawl_file] and [to_crawled_text]
    build, and every record [chunk] creates, has [is_error] set exactly when
    it has an error message, and no content exactly when [is_error] is set;
    the records [chunk] keeps without creating them are records of its
    input, so a batch that satisfies the two equivalences keeps them. *)
Theorem records_error_iff_message_iff_no_content :
  (∀ (B : Browser) (d : driver B) (url_objects : list DocObject.t),
     Forall record_invariant (crawl_urls B d url_objects))
  ∧ (∀ (F : FileSystem) (local_obj : DocObject.t),
       record_invariant (crawl_file F local_obj))
  ∧ (∀ (uuid4 : nat -> string) (text_list : list string),
       Forall record_invariant (to_crawled_text uuid4 text_list))
  ∧ (∀ (split_text : string -> list string) (doc_objs : list CrawledObject.t)
       (r : CrawledObject.t),
       r ∈ chunk_docs split_text doc_objs →
       record_invariant r ∨ r ∈ doc_objs)
  ∧ (∀ (split_text : string -> list string) (doc_objs : list CrawledObject.t),
       Forall record_invariant doc_objs →
       Forall record_invariant (chunk_docs split_text doc_objs)).
Proof.
  assert (Hchunk : ∀ split_text doc_objs r,
            r ∈ chunk_docs split_text doc_objs → record_invariant r ∨ r ∈ doc_objs).
  { intros split_text doc_objs r. induction doc_objs as [|d l IH].
    { by intros ?%elem_of_nil. }
    rewrite chunk_docs_cons. intros [Hin|Hin]%elem_of_app.
    - revert Hin. unfold chunk_step.
      destruct (CrawledObject.is_error d), (CrawledObject.content d) as [c|];
        simpl; try by intros ?%elem_of_nil.
      destruct (CrawledObject.is_chunk d); simpl.
      + intros ->%list_elem_of_singleton. right. by left.
      + rewrite foldl_chunk_piece. simpl.
        intros (it & -> & _)%list_elem_of_fmap. left.
        split; simpl; split; congruence.
    - destruct (IH Hin); [by left|right; by right]. }
  split_and!.
  - intros B d url_objects. apply Forall_forall. intros r Hr.
    apply elem_of_crawl_urls in Hr as (d' & o & _ & ->).
    destruct (crawled_cases B d' o) as [(t & title & ->)|(err & ->)];
      split; simpl; split; congruence.
  - intros F local_obj. unfold crawl_file.
    destruct (crawl_file_try F local_obj) as [doc|err] eqn:Htry.
    + apply crawl_file_try_ok in Htry as (t & title & ->).
      split; simpl; split; congruence.
    + split; simpl; split; congruence.
  - intros uuid4 text_list. apply Forall_forall. intros r Hr.
    apply elem_of_to_crawled_text in Hr as (i & txt & ->).
    split; simpl; split; congruence.
  - apply Hchunk.
  - intros split_text doc_objs Hall. apply Forall_forall. intros r Hr.
    destruct (Hchunk _ _ _ Hr) as [?|Hin]; [done|].
    by eapply Forall_forall in Hall.
Qed.

(** C8, as the code has it.  Every record of [to_crawled_url_objs], failed
    or not, and every record of [to_crawled_local_objs] whose extraction
    succeeded has the metadata keys "title" and "source"; the records of
    [to_crawled_text] have an empty metadata mapping. *)
Theorem ingestion_metadata_keys :
  (∀ (B : Browser) (d : driver B) (uuid4 : nat -> string) (url_list : list string)
     (r : CrawledObject.t),
     r ∈ to_crawled_url_objs B d uuid4 url_list → has_title_and_source r)
  ∧ (∀ (F : FileSystem) (uuid4 : nat -> string) (file_list : list string)
       (r : CrawledObject.t),
       r ∈ to_crawled_local_objs F uuid4 file_list →
       CrawledObject.is_error r = false → has_title_and_source r)
  ∧ (∀ (uuid4 : nat -> string) (text_list : list string) (r : CrawledObject.t),
       r ∈ to_crawled_text uuid4 text_list → CrawledObject.metadata r = ∅).
Proof.
  assert (Hts : ∀ t s, is_Some (title_source t s !! "title")
                       ∧ is_Some (title_source t s !! "source")).
  { intros t s. unfold title_source. split; eexists.
    - apply lookup_insert_eq.
    - rewrite lookup_insert_ne by done. apply lookup_insert_eq. }
  split_and!.
  - intros B d uuid4 url_list r Hr. unfold to_crawled_url_objs in Hr.
    apply elem_of_crawl_urls in Hr as (d' & o & _ & ->).
    destruct (crawled_cases B d' o) as [(t & title & ->)|(err & ->)]; apply Hts.
  - intros F uuid4 file_list r Hr Hok. unfold to_crawled_local_objs in Hr.
    apply list_elem_of_fmap in Hr as (o & -> & _).
    revert Hok. unfold crawl_file.
    destruct (crawl_file_try F o) as [doc|err] eqn:Htry; [|done].
    apply crawl_file_try_ok in Htry as (t & title & ->). intros _. apply Hts.
  - intros uuid4 text_list r Hr.
    by apply elem_of_to_crawled_text in Hr as (i & txt & ->).
Qed.

(** The record [crawl_file] returns when the extraction raises: only the
    title is in its metadata. *)
Lemma crawl_file_error_metadata (F : FileSystem) (local_obj : DocObject.t) :
  CrawledObject.is_error (crawl_file F local_obj) = true →
  CrawledObject.metadata (crawl_file F local_obj)
  = {[ "title" := path_name F (DocObject.source local_obj) ]}.
Proof.
  unfold crawl_file.
  destruct (crawl_file_try F local_obj) as [doc|err] eqn:Htry; [|done].
  by apply crawl_file_try_ok in Htry as (t & title & ->).
Qed.

(** C8, as stated, fails: the record [to_crawled_text] builds for a text has
    neither key in its metadata. *)
Lemma to_crawled_text_metadata_empty :
  ∃ r : CrawledObject.t,
    to_crawled_text (fun i => "id-" +:+ PyStr.str_of_nat i) ["hello"] = [r]
    ∧ CrawledObject.metadata r !! "title" = None
    ∧ CrawledObject.metadata r !! "source" = None.
Proof. eexists. split_and!; reflexivity. Qed.

(** ** FrontierExplorer *)

Lemma prefix_refl s : String.prefix s s = true.
Proof.
  induction s as [|a s IH]; simpl; [done|].
  by destruct (ascii_dec a a).
Qed.

Lemma endswith_contains s p : PyStr.endswith s p = true → PyStr.contains p s = true.
Proof.
  induction s as [|a s IH]; cbn [PyStr.endswith PyStr.contains].
  - by destruct p.
  - intros [->%String.eqb_eq | H]%orb_true_iff; apply orb_true_iff.
    + left. apply prefix_refl.
    + right. auto.
Qed.

Lemma _check_url_true full_url base_url :
  _check_url full_url base_url = true →
  PyStr.startswith full_url base_url = true
  ∧ full_url ≠ base_url
  ∧ ∀ kw, kw ∈ kw_list → PyStr.contains kw full_url = false.
Proof.
  unfold _check_url. rewrite !andb_true_iff, !negb_true_iff.
  intros [[[Hp _] Hkw] Hne]. split_and!; [done| |].
  - intros ->. by rewrite String.eqb_refl in Hne.
  - intros kw Hin. destruct (PyStr.contains kw full_url) eqn:Hc; [|done].
    assert (existsb (λ kw, PyStr.contains kw full_url) kw_list = true); [|congruence].
    apply existsb_exists. exists kw. split; [|done]. by apply list_elem_of_In.
Qed.

Lemma _check_url_self url : _check_url url url = false.
Proof.
  unfold _check_url. rewrite String.eqb_refl. simpl. apply andb_false_r.
Qed.

Lemma foldl_outsource_step base_url links acc x :
  x ∈ foldl (outsource_step base_url) acc links →
  x ∈ acc ∨ _check_url x base_url = true.
Proof.
  revert acc. induction links as [|link links IH]; intros acc; simpl; [by left|].
  intros [Hin|?]%IH; [|by right].
  unfold outsource_step in Hin. destruct link as [joined|]; [|by left].
  destruct (_check_url (normalize joined) base_url) eqn:Hc; [|by left].
  apply elem_of_app in Hin as [?| ->%list_elem_of_singleton]; [by left|by right].
Qed.

Lemma get_outsource_urls_checked W curr_url base_url x :
  set_order_ok (list_of_set W) →
  x ∈ get_outsource_urls W curr_url base_url → _check_url x base_url = true.
Proof.
  intros Hset. unfold get_outsource_urls. intros Hin.
  apply (proj1 (proj2 (Hset _) _)) in Hin.
  destruct (page_links W curr_url) as [links|]; [|by apply elem_of_nil in Hin].
  apply foldl_outsource_step in Hin as [?%elem_of_nil|?]; done.
Qed.

(** One iteration of the loop. *)
Lemma while_urls_to_visit_unfold W max_num base_url budget urls_visited urls_to_visit :
  while_urls_to_visit W max_num base_url budget urls_visited urls_to_visit =
  match urls_to_visit with
  | [] => Some urls_visited
  | current_url :: rest =>
      if max_num <=? Z.of_nat (length urls_visited) then Some urls_visited
      else if bool_decide (current_url ∈ urls_visited)
      then while_urls_to_visit W max_num base_url budget urls_visited rest
      else
        match budget with
        | O => None
        | S budget' =>
            while_urls_to_visit W max_num base_url budget'
              (urls_visited ++ [current_url])
              (list_of_set W (rest ++ get_outsource_urls W current_url base_url))
        end
  end.
Proof. destruct budget, urls_to_visit; reflexivity. Qed.

(** The loop ends, and what it has visited when it ends: the list it
    started from, then at most [max_num] entries in all, each taken from the
    queue. *)
Lemma while_urls_to_visit_spec W max_num base_url (P : string → Prop) :
  (∀ l, Forall P l → Forall P (list_of_set W l)) →
  (∀ cur, Forall P (get_outsource_urls W cur base_url)) →
  ∀ budget urls_visited urls_to_visit,
    max_num - Z.of_nat (length urls_visited) ≤ Z.of_nat budget →
    Forall P urls_to_visit →
    ∃ visited',
      while_urls_to_visit W max_num base_url budget urls_visited urls_to_visit
        = Some visited'
      ∧ urls_visited `prefix_of` visited'
      ∧ Z.of_nat (length visited') ≤ Z.max max_num (Z.of_nat (length urls_visited))
      ∧ ∀ u, u ∈ visited' → u ∈ urls_visited ∨ P u.
Proof.
  intros Hset Hnew. induction budget as [|b IHb]; intros visited queue Hb;
    induction queue as [|cur rest IHq]; intros HP;
    rewrite while_urls_to_visit_unfold.
  1,3: exists visited; split_and!; [done|done|lia|by left].
  - destruct (Z.leb_spec max_num (Z.of_nat (length visited))); [|lia].
    exists visited; split_and!; [done|done|lia|by left].
  - destruct (Z.leb_spec max_num (Z.of_nat (length visited))).
    { exists visited; split_and!; [done|done|lia|by left]. }
    apply Forall_cons in HP as [Hcur Hrest].
    case_bool_decide; [by apply IHq|].
    destruct (IHb (visited ++ [cur])
                (list_of_set W (rest ++ get_outsource_urls W cur base_url)))
      as (visited' & Heq & Hpre & Hlen & Hin).
    + rewrite length_app. simpl. lia.
    + apply Hset, Forall_app. split; [done|apply Hnew].
    + exists visited'. split_and!; [done| | |].
      * etrans; [|exact Hpre]. by apply prefix_app_r.
      * rewrite length_app in Hlen. simpl in Hlen. lia.
      * intros u [[?| ->%list_elem_of_singleton]%elem_of_app|?]%Hin; auto.
Qed.

Lemma sorted_elem_of l x : x ∈ sorted l ↔ x ∈ l.
Proof. unfold sorted. by rewrite merge_sort_Permutation. Qed.

Lemma sorted_length l : length (sorted l) = length l.
Proof. unfold sorted. by rewrite merge_sort_Permutation. Qed.

Lemma sorted_ascending l : StronglySorted String.le (sorted l).
Proof. apply StronglySorted_merge_sort; apply _. Qed.

Lemma slice_to_elem_of {A} (l : list A) k x : x ∈ PyStr.slice_to l k → x ∈ l.
Proof.
  unfold PyStr.slice_to. destruct (0 <=? k); apply subseteq_take.
Qed.

Lemma slice_to_length {A} (l : list A) k :
  Z.of_nat (length l) ≤ Z.max k 0 →
  Z.of_nat (length (PyStr.slice_to l k)) ≤ Z.max 0 k.
Proof.
  unfold PyStr.slice_to. destruct (Z.leb_spec 0 k); rewrite length_take; lia.
Qed.

(** Two hash orders for the examples: the elements without repetition in
    ascending order, and in descending order. *)
Definition asc_order (l : list string) : list string :=
  merge_sort String.le (remove_dups l).

Definition desc_order (l : list string) : list string :=
  reverse (asc_order l).

Lemma asc_order_ok : set_order_ok asc_order.
Proof.
  intros l. unfold asc_order. split.
  - rewrite merge_sort_Permutation. apply NoDup_remove_dups.
  - intros x. rewrite merge_sort_Permutation. apply elem_of_remove_dups.
Qed.

Lemma desc_order_ok : set_order_ok desc_order.
Proof.
  intros l. unfold desc_order. destruct (asc_order_ok l) as [Hnd Hin]. split.
  - by rewrite reverse_Permutation.
  - intros x. by rewrite elem_of_reverse.
Qed.

(** A small site: the front page links to /a and /b (and to an image, a
    page of another site and a fragment of /a), /b links to /b/c, and
    every other request fails. *)
Definition site_links (url : string) : Result (list (Result string)) :=
  if String.eqb url "http://s.test" then
    Ok [Ok "http://s.test/a"; Ok "http://s.test/b/"; Ok "http://s.test/a#top";
        Ok "http://elsewhere.test/x"; Ok "http://s.test/logo.png";
        Raise "ValueError: Invalid IPv6 URL"]
  else if String.eqb url "http://s.test/b" then Ok [Ok "http://s.test/b/c"]
  else Raise "HTTPError: 404".

Definition site (order : list string -> list string) : Web :=
  {| page_links := site_links; list_of_set := order |}.

(** The loop of [get_all_urls] always ends: the function returns a list for
    every site, base URL, bound and hash order. *)
Lemma get_all_urls_total (W : Web) (base_url : string) (max_num : Z) :
  is_Some (get_all_urls W base_url max_num).
Proof.
  unfold get_all_urls.
  destruct (while_urls_to_visit_spec W max_num (normalize base_url) (λ _, True))
    with (budget := Z.to_nat max_num) (urls_visited := @nil string)
         (urls_to_visit := [normalize base_url])
    as (visited' & Heq & _).
  - intros l _. by apply Forall_forall.
  - intros cur. by apply Forall_forall.
  - simpl. lia.
  - by apply Forall_forall.
  - rewrite Heq. by eexists.
Qed.

(** C10.  With [max_num <= 0] the result is the empty list.  With
    [max_num >= 1] the normalized base URL is in the result, whatever the
    pages link to and whatever the hash order: it is put in the queue as it
    is, and [_check_url] would reject it (it is never different from
    itself), denylisted extension or not. *)
Theorem get_all_urls_base_url (W : Web) (base_url : string) (max_num : Z) :
  (max_num ≤ 0 → get_all_urls W base_url max_num = Some [])
  ∧ (1 ≤ max_num →
     ∃ urls, get_all_urls W base_url max_num = Some urls
             ∧ normalize base_url ∈ urls)
  ∧ _check_url (normalize base_url) (normalize base_url) = false.
Proof.
  split_and!.
  - intros Hle. unfold get_all_urls.
    rewrite while_urls_to_visit_unfold. simpl.
    destruct (Z.leb_spec max_num (Z.of_nat 0)); [|lia]. simpl.
    unfold PyStr.slice_to. destruct (0 <=? max_num); by rewrite take_nil.
  - intros Hge. unfold get_all_urls.
    rewrite while_urls_to_visit_unfold. simpl.
    destruct (Z.leb_spec max_num (Z.of_nat 0)); [lia|].
    destruct (Z.to_nat max_num) as [|b] eqn:Hb; [lia|]. simpl.
    destruct (while_urls_to_visit_spec W max_num (normalize base_url) (λ _, True))
      with (budget := b) (urls_visited := [normalize base_url])
           (urls_to_visit := list_of_set W
              ([] ++ get_outsource_urls W (normalize base_url) (normalize base_url)))
      as (visited' & Heq & [rest ->] & _ & _).
    + intros l _. by apply Forall_forall.
    + intros cur. by apply Forall_forall.
    + simpl. lia.
    + by apply Forall_forall.
    + simpl in Heq. rewrite Heq. simpl. eexists. split; [done|].
      apply sorted_elem_of. unfold PyStr.slice_to.
      destruct (Z.leb_spec 0 max_num); [|lia].
      rewrite Hb. simpl. by left.
  - apply _check_url_self.
Qed.

(** The base URL is returned even when it names a PDF. *)
Example get_all_urls_pdf_base :
  get_all_urls (site asc_order) "http://s.test/manual.pdf" 1
  = Some ["http://s.test/manual.pdf"].
Proof. by vm_compute. Qed.

(** C6, as the code has it.  Whatever the pages link to, and for every
    order [list(set(..))] may give, [get_all_urls] returns a list that is
    sorted in ascending order, has at most [max(max_num, 0)] entries, and
    holds only URLs that start with the normalized base URL; every entry
    other than the normalized base URL itself contains none of the
    denylisted extensions anywhere, so it does not end in one either. *)
Theorem get_all_urls_sorted_bounded_filtered
    (W : Web) (base_url : string) (max_num : Z) :
  set_order_ok (list_of_set W) →
  ∃ urls,
    get_all_urls W base_url max_num = Some urls
    ∧ StronglySorted String.le urls
    ∧ Z.of_nat (length urls) ≤ Z.max 0 max_num
    ∧ ∀ u, u ∈ urls →
        PyStr.startswith u (normalize base_url) = true
        ∧ (u ≠ normalize base_url →
           ∀ kw, kw ∈ kw_list →
             PyStr.contains kw u = false ∧ PyStr.endswith u kw = false).
Proof.
  intros Hset. unfold get_all_urls.
  set (base := normalize base_url).
  pose (P := λ u : string, u = base ∨ _check_url u base = true).
  destruct (while_urls_to_visit_spec W max_num base P)
    with (budget := Z.to_nat max_num) (urls_visited := @nil string)
         (urls_to_visit := [base])
    as (visited' & Heq & _ & Hlen & Hin).
  - intros l Hl. apply Forall_forall. intros x Hx.
    apply (proj1 (proj2 (Hset _) _)) in Hx.
    by eapply Forall_forall in Hl.
  - intros cur. apply Forall_forall. intros x Hx. right.
    by eapply get_outsource_urls_checked.
  - simpl. lia.
  - apply Forall_singleton. by left.
  - rewrite Heq. simpl. eexists. split; [done|]. split_and!.
    + apply sorted_ascending.
    + rewrite sorted_length. apply slice_to_length. simpl in Hlen. lia.
    + intros u Hu%sorted_elem_of%slice_to_elem_of.
      apply Hin in Hu as [?%elem_of_nil | [-> | Hc]]; [done| |].
      * split; [apply prefix_refl|done].
      * apply _check_url_true in Hc as (Hp & _ & Hkw).
        split; [done|]. intros _ kw Hkwin. split; [by apply Hkw|].
        destruct (PyStr.endswith u kw) eqn:He; [|done].
        apply endswith_contains in He. rewrite Hkw in He; done.
Qed.

Lemma get_all_urls_sorted_bounded_filtered_witness :
  ∃ urls,
    get_all_urls (site desc_order) "http://s.test/#frag" 3 = Some urls
    ∧ StronglySorted String.le urls
    ∧ Z.of_nat (length urls) ≤ Z.max 0 3
    ∧ ∀ u, u ∈ urls →
        PyStr.startswith u (normalize "http://s.test/#frag") = true
        ∧ (u ≠ normalize "http://s.test/#frag" →
           ∀ kw, kw ∈ kw_list →
             PyStr.contains kw u = false ∧ PyStr.endswith u kw = false).
Proof.
  apply (get_all_urls_sorted_bounded_filtered (site desc_order) "http://s.test/#frag" 3).
  exact desc_order_ok.
Defined.

(** C6, as stated, fails: a base URL that names a PDF is returned, and it
    ends in a denylisted extension. *)
Lemma get_all_urls_returns_denylisted_base :
  ∃ u,
    get_all_urls (site asc_order) "http://s.test/manual.pdf" 1 = Some [u]
    ∧ PyStr.endswith u ".pdf" = true
    ∧ ".pdf" ∈ kw_list.
Proof.
  exists "http://s.test/manual.pdf". split_and!.
  - by vm_compute.
  - by vm_compute.
  - by left.
Qed.

(** C3, on the code.  Both orders below are orders [list(set(..))] may
    give.  On the same site, from the same base URL and with the same
    [max_num], the two runs return different lists; under the second order
    the page /b/c, two links away from the base, is visited while /a, one
    link away, is not. *)
Theorem get_all_urls_depends_on_set_order :
  set_order_ok asc_order
  ∧ set_order_ok desc_order
  ∧ get_all_urls (site asc_order) "http://s.test/#frag" 3
    = Some ["http://s.test"; "http://s.test/a"; "http://s.test/b"]
  ∧ get_all_urls (site desc_order) "http://s.test/#frag" 3
    = Some ["http://s.test"; "http://s.test/b"; "http://s.test/b/c"]
  ∧ get_all_urls (site asc_order) "http://s.test/#frag" 3
    ≠ get_all_urls (site desc_order) "http://s.test/#frag" 3.
Proof.
  assert (Ha : get_all_urls (site asc_order) "http://s.test/#frag" 3
               = Some ["http://s.test"; "http://s.test/a"; "http://s.test/b"])
    by (by vm_compute).
  assert (Hd : get_all_urls (site desc_order) "http://s.test/#frag" 3
               = Some ["http://s.test"; "http://s.test/b"; "http://s.test/b/c"])
    by (by vm_compute).
  split_and!; [apply asc_order_ok|apply desc_order_ok|done|done|].
  rewrite Ha, Hd. intros [=].
Qed.

(** ** LinkGraphRanker *)

(** *** Insertion-ordered dictionaries *)

Section odict.
Context {V : Type}.
Implicit Types (d : odict V) (k : string) (v : V).

Lemma odict_get_app d1 d2 k :
  odict_get (d1 ++ d2) k =
  match odict_get d1 k with Some v => Some v | None => odict_get d2 k end.
Proof.
  induction d1 as [|[k' v'] d1 IH]; simpl; [done|].
  by destruct (String.eqb k' k).
Qed.

Lemma odict_get_None d k : odict_get d k = None ↔ k ∉ odict_keys d.
Proof.
  unfold odict_keys. induction d as [|[k' v'] d IH]; simpl.
  - split; [intros _ ?%elem_of_nil|]; done.
  - rewrite not_elem_of_cons. destruct (String.eqb_spec k' k) as [->|Hne].
    + split; [done|]. by intros [? _].
    + rewrite IH. split; [by intros ?|by intros [_ ?]].
Qed.

Lemma odict_get_Some_elem_of d k v : odict_get d k = Some v → (k, v) ∈ d.
Proof.
  induction d as [|[k' v'] d IH]; simpl; [done|].
  destruct (String.eqb_spec k' k) as [->|Hne].
  - intros [= ->]. by left.
  - intros ?. right. auto.
Qed.

Lemma odict_get_is_Some d k : is_Some (odict_get d k) ↔ k ∈ odict_keys d.
Proof.
  destruct (odict_get d k) eqn:Hg.
  - split; [intros _|by eauto]. apply odict_get_Some_elem_of in Hg.
    unfold odict_keys. apply list_elem_of_fmap. by exists (k, v).
  - apply odict_get_None in Hg. split; [by intros [? ?]|done].
Qed.

Lemma odict_set_fresh d k v :
  odict_get d k = None → odict_set d k v = d ++ [(k, v)].
Proof.
  induction d as [|[k' v'] d IH]; simpl; [done|].
  destruct (String.eqb k' k); [done|]. intros ?. by rewrite IH.
Qed.

Lemma odict_get_set d k v k' :
  odict_get (odict_set d k v) k' =
  if String.eqb k k' then Some v else odict_get d k'.
Proof.
  induction d as [|[k0 v0] d IH]; simpl; [done|].
  destruct (String.eqb_spec k0 k) as [->|Hne]; simpl.
  - by destruct (String.eqb k k').
  - rewrite IH. destruct (String.eqb_spec k0 k') as [->|Hne'].
    + destruct (String.eqb_spec k k'); congruence.
    + done.
Qed.

End odict.

(** The id the mapping holds for a source: that of the last record with
    this source. *)
Definition last_id (urls : list CrawledObject.t) (s : string) : option string :=
  CrawledObject.id <$> last (filter (λ u, CrawledObject.source u = s) urls).

Lemma url_to_id_mapping_snoc urls u :
  url_to_id_mapping (urls ++ [u]) =
  odict_set (url_to_id_mapping urls) (CrawledObject.source u) (CrawledObject.id u).
Proof. unfold url_to_id_mapping. by rewrite foldl_app. Qed.

Lemma url_to_id_mapping_get urls s :
  odict_get (url_to_id_mapping urls) s = last_id urls s.
Proof.
  unfold last_id. induction urls as [|u urls IH] using rev_ind; [done|].
  rewrite url_to_id_mapping_snoc, odict_get_set, filter_app, IH.
  rewrite filter_cons, filter_nil.
  destruct (String.eqb_spec (CrawledObject.source u) s) as [Hs|Hs];
    case_decide; try done.
  - by rewrite last_snoc.
  - by rewrite app_nil_r.
Qed.

Lemma last_id_Some urls s j :
  last_id urls s = Some j →
  ∃ b, b ∈ urls ∧ CrawledObject.source b = s ∧ CrawledObject.id b = j.
Proof.
  unfold last_id. intros (b & Hb & ->)%fmap_Some.
  apply last_Some_elem_of, list_elem_of_filter in Hb as [? ?]. eauto.
Qed.

Lemma last_id_is_Some urls b :
  b ∈ urls → is_Some (last_id urls (CrawledObject.source b)).
Proof.
  intros Hb. rewrite <- url_to_id_mapping_get. apply odict_get_is_Some.
  induction urls as [|u urls IH] using rev_ind; [by apply elem_of_nil in Hb|].
  rewrite url_to_id_mapping_snoc.
  apply odict_get_is_Some. rewrite odict_get_set.
  destruct (String.eqb_spec (CrawledObject.source u) (CrawledObject.source b));
    [by eauto|].
  apply odict_get_is_Some, IH.
  apply elem_of_app in Hb as [?|Hb]; [done|].
  apply list_elem_of_singleton in Hb. congruence.
Qed.

(** *** The node and edge lists of the second loop *)

Definition non_error (urls : list CrawledObject.t) : list CrawledObject.t :=
  filter (λ u, CrawledObject.is_error u = false) urls.

(** The edges one record contributes. *)
Definition out_edges (mapping : odict string) (u : CrawledObject.t)
    : list (string * string) :=
  match CrawledObject.content u with
  | Some c =>
      (λ kv, (CrawledObject.id u, kv.2))
        <$> filter (λ kv : string * string, PyStr.contains kv.1 c = true) mapping
  | None => []
  end.

Lemma foldM_edges mapping u c es :
  CrawledObject.content u = Some c →
  foldM (fun edges kv =>
           let! hit := key_in_content kv.1 (CrawledObject.content u) in
           Ok (if hit then edges ++ [(CrawledObject.id u, kv.2)] else edges))
        mapping es
  = Ok (es ++ out_edges mapping u).
Proof.
  intros Hc. unfold out_edges. rewrite Hc.
  revert es. induction mapping as [|kv m IH]; intros es.
  - simpl. by rewrite app_nil_r.
  - cbn [foldM key_in_content bind]. rewrite IH, filter_cons.
    destruct (PyStr.contains kv.1 c) eqn:Hhit; case_decide; try done.
    rewrite fmap_cons. by rewrite <- app_assoc.
Qed.

Lemma foldM_collect_step mapping urls ns es :
  (∀ u, u ∈ urls → CrawledObject.is_error u = false →
        CrawledObject.content u ≠ None) →
  foldM (collect_step mapping) urls (ns, es) =
  Ok (ns ++ ((λ u, (CrawledObject.id u, to_dict u)) <$> non_error urls),
      es ++ (non_error urls ≫= out_edges mapping)).
Proof.
  unfold non_error.
  revert ns es. induction urls as [|u urls IH]; intros ns es Hc.
  - simpl. by rewrite !app_nil_r.
  - cbn [foldM]. rewrite filter_cons. unfold collect_step at 1.
    destruct (CrawledObject.is_error u) eqn:He.
    + rewrite decide_False by done. cbn [bind].
      apply IH. intros ???. apply Hc; [by right|done].
    + rewrite decide_True by done.
      destruct (CrawledObject.content u) as [c|] eqn:Hcu.
      2:{ exfalso. eapply Hc; [by left|done|done]. }
      rewrite <- Hcu, (foldM_edges _ _ c) by done. cbn [bind].
      rewrite IH by (intros ???; apply Hc; [by right|done]).
      rewrite fmap_cons, bind_cons. by rewrite <- !app_assoc.
Qed.

Lemma elem_of_out_edges mapping u i j :
  (i, j) ∈ out_edges mapping u ↔
  i = CrawledObject.id u
  ∧ ∃ k c, CrawledObject.content u = Some c ∧ (k, j) ∈ mapping
            ∧ PyStr.contains k c = true.
Proof.
  unfold out_edges. destruct (CrawledObject.content u) as [c|].
  - rewrite list_elem_of_fmap. split.
    + intros ([k j'] & [= -> ->] & [Hhit Hin]%list_elem_of_filter). simpl in *.
      split; [done|]. by exists k, c.
    + intros (-> & k & c' & [= <-] & Hin & Hhit).
      exists (k, j). split; [done|]. by apply list_elem_of_filter.
  - split; [by intros ?%elem_of_nil|]. by intros (_ & ? & ? & ? & _).
Qed.

(** *** Building the graph *)

Lemma to_dict_same_keys r1 r2 k :
  is_Some (to_dict r1 !! k) → is_Some (to_dict r2 !! k).
Proof.
  unfold to_dict. rewrite !lookup_insert_is_Some', !lookup_empty. tauto.
Qed.

Lemma to_dict_union r1 r2 : to_dict r2 ∪ to_dict r1 = to_dict r2.
Proof.
  apply map_eq. intros k. rewrite lookup_union.
  destruct (to_dict r2 !! k) as [v2|] eqn:H2, (to_dict r1 !! k) as [v1|] eqn:H1;
    try done.
  assert (is_Some (to_dict r2 !! k)) as [? ?]; [|congruence].
  apply (to_dict_same_keys r1). by rewrite H1.
Qed.

Lemma to_dict_nonempty r : to_dict r ≠ ∅.
Proof. unfold to_dict. apply insert_non_empty. Qed.

Lemma from_dict_to_dict r : from_dict (to_dict r) = Ok r.
Proof. by destruct r. Qed.

Lemma add_nodes_from_snoc g ns n :
  add_nodes_from g (ns ++ [n]) = add_node (add_nodes_from g ns) n.
Proof. unfold add_nodes_from. by rewrite foldl_app. Qed.

Lemma add_nodes_from_edges g ns : edges (add_nodes_from g ns) = edges g.
Proof.
  induction ns as [|n ns IH] using rev_ind; [done|].
  by rewrite add_nodes_from_snoc.
Qed.

(** The record whose dictionary the node [i] carries. *)
Definition last_record (rs : list CrawledObject.t) (i : string) : option CrawledObject.t :=
  last (filter (λ u, CrawledObject.id u = i) rs).

Lemma add_nodes_from_get rs i :
  odict_get (nodes (add_nodes_from empty_graph
                      ((λ u, (CrawledObject.id u, to_dict u)) <$> rs))) i
  = to_dict <$> last_record rs i.
Proof.
  unfold last_record. induction rs as [|u rs IH] using rev_ind; [done|].
  rewrite fmap_app. cbn [fmap list_fmap]. rewrite add_nodes_from_snoc.
  cbn [add_node nodes fst snd].
  rewrite odict_get_set, filter_app, filter_cons, filter_nil.
  destruct (String.eqb_spec (CrawledObject.id u) i) as [Hi|Hi];
    case_decide; try done.
  - rewrite last_snoc. simpl. f_equal. subst i. rewrite IH.
    destruct (last _); simpl; [apply to_dict_union|].
    by rewrite (right_id ∅ (∪)).
  - by rewrite app_nil_r.
Qed.

Lemma add_nodes_from_distinct rs :
  NoDup (CrawledObject.id <$> rs) →
  nodes (add_nodes_from empty_graph ((λ u, (CrawledObject.id u, to_dict u)) <$> rs))
  = (λ u, (CrawledObject.id u, to_dict u)) <$> rs.
Proof.
  induction rs as [|u rs IH] using rev_ind; [done|].
  rewrite !fmap_app. cbn [fmap list_fmap]. intros [Hnd [Hfresh _]]%NoDup_app.
  rewrite add_nodes_from_snoc. cbn [add_node nodes fst snd].
  assert (Hget : odict_get
            (nodes (add_nodes_from empty_graph
                      ((λ u, (CrawledObject.id u, to_dict u)) <$> rs)))
            (CrawledObject.id u) = None).
  { rewrite IH by done. apply odict_get_None. unfold odict_keys.
    rewrite <- list_fmap_compose. intros Hin. eapply Hfresh; [exact Hin|by left]. }
  rewrite Hget, odict_set_fresh by done. simpl.
  by rewrite IH, (right_id ∅ (∪)).
Qed.

Lemma add_edges_from_snoc g es e :
  add_edges_from g (es ++ [e]) = add_edge (add_edges_from g es) e.
Proof. unfold add_edges_from. by rewrite foldl_app. Qed.

Lemma touch_node_spec (ns : list (string * gmap string Value)) (n : string) :
  ∃ extra : list string,
    touch_node ns n = ns ++ ((λ i, (i, ∅)) <$> extra)
    ∧ (∀ i, i ∈ extra → i = n ∧ odict_get ns i = None)
    ∧ is_Some (odict_get (touch_node ns n) n).
Proof.
  unfold touch_node. destruct (odict_get ns n) as [d|] eqn:Hg.
  - exists []. split_and!; [by rewrite app_nil_r|by intros ? ?%elem_of_nil|].
    by rewrite Hg.
  - exists [n]. split_and!; [done| |].
    + by intros i ->%list_elem_of_singleton.
    + rewrite odict_get_app, Hg. simpl. rewrite String.eqb_refl. by eexists.
Qed.

Lemma odict_get_app_is_Some {V} (d1 d2 : list (string * V)) k :
  is_Some (odict_get d1 k) → is_Some (odict_get (d1 ++ d2) k).
Proof. rewrite odict_get_app. by intros [v ->]. Qed.

(** What [add_edges_from] does to a graph: the nodes it had stay as they
    are, in place; end points that were missing follow them, with no
    attributes; the edges are those it had and those given. *)
Lemma add_edges_from_spec g es :
  ∃ extra : list string,
    nodes (add_edges_from g es) = nodes g ++ ((λ i, (i, ∅)) <$> extra)
    ∧ (∀ i, i ∈ extra →
         odict_get (nodes g) i = None ∧ ∃ e, e ∈ es ∧ (i = e.1 ∨ i = e.2))
    ∧ (∀ e, e ∈ es →
         is_Some (odict_get (nodes (add_edges_from g es)) e.1)
         ∧ is_Some (odict_get (nodes (add_edges_from g es)) e.2))
    ∧ (∀ e, e ∈ edges (add_edges_from g es) ↔ e ∈ edges g ∨ e ∈ es).
Proof.
  induction es as [|e es IH] using rev_ind.
  { exists []. split_and!.
    - simpl. by rewrite app_nil_r.
    - by intros ? ?%elem_of_nil.
    - by intros ? ?%elem_of_nil.
    - intros e. split; [by left|]. by intros [?|?%elem_of_nil]. }
  destruct IH as (extra & Hnodes & Hextra & Hends & Hedges).
  rewrite add_edges_from_snoc.
  set (g' := add_edges_from g es) in *.
  destruct (touch_node_spec (nodes g') e.1) as (x1 & H1 & Hx1 & Hs1).
  destruct (touch_node_spec (touch_node (nodes g') e.1) e.2) as (x2 & H2 & Hx2 & Hs2).
  exists (extra ++ x1 ++ x2). cbn [add_edge nodes edges]. split_and!.
  - rewrite H2, H1, Hnodes, !fmap_app. by rewrite <- !app_assoc.
  - intros i [Hi|[Hi|Hi]%elem_of_app]%elem_of_app.
    + destruct (Hextra i Hi) as (? & e' & ? & ?). split; [done|].
      exists e'. split; [|done]. apply elem_of_app. by left.
    + destruct (Hx1 i Hi) as [-> Hnone]. split.
      * rewrite Hnodes, odict_get_app in Hnone. by destruct (odict_get (nodes g) e.1).
      * exists e. split; [|by left]. apply elem_of_app. right. by left.
    + destruct (Hx2 i Hi) as [-> Hnone]. split.
      * rewrite H1, Hnodes, !odict_get_app in Hnone.
        by destruct (odict_get (nodes g) e.2).
      * exists e. split; [|by right]. apply elem_of_app. right. by left.
  - intros e' [Hin| ->%list_elem_of_singleton]%elem_of_app.
    + destruct (Hends e' Hin) as [Ha Hb].
      rewrite H2, H1. split; by do 2 apply odict_get_app_is_Some.
    + split; [|done]. rewrite H2. by apply odict_get_app_is_Some.
  - intros e'. case_bool_decide as Hdec.
    + rewrite Hedges, elem_of_app, list_elem_of_singleton.
      split; [tauto|]. intros [?|[?| ->]]; [tauto|tauto|]. by apply Hedges.
    + rewrite !elem_of_app, Hedges, list_elem_of_singleton. tauto.
Qed.

Lemma odict_set_keys_NoDup {V} (d : list (string * V)) k v :
  NoDup (odict_keys d) → NoDup (odict_keys (odict_set d k v)).
Proof.
  unfold odict_keys. induction d as [|[k' v'] d IH]; simpl.
  - intros _. apply NoDup_singleton.
  - intros [Hnin Hnd]%NoDup_cons.
    destruct (String.eqb_spec k' k) as [->|Hne]; simpl; apply NoDup_cons.
    + done.
    + split; [|by apply IH]. intros Hin. apply Hnin.
      change (k' ∈ odict_keys (odict_set d k v)) in Hin.
      apply odict_get_is_Some in Hin. rewrite odict_get_set in Hin.
      destruct (String.eqb_spec k k'); [congruence|].
      by apply odict_get_is_Some in Hin.
Qed.

Lemma odict_elem_of_get {V} (d : list (string * V)) k v :
  NoDup (odict_keys d) → (k, v) ∈ d → odict_get d k = Some v.
Proof.
  unfold odict_keys. induction d as [|[k' v'] d IH]; simpl.
  - by intros _ ?%elem_of_nil.
  - intros [Hnin Hnd]%NoDup_cons [[= -> ->]|Hin]%elem_of_cons.
    + by rewrite String.eqb_refl.
    + destruct (String.eqb_spec k' k) as [->|Hne]; [|by apply IH].
      exfalso. apply Hnin. apply list_elem_of_fmap. by exists (k, v).
Qed.

Lemma url_to_id_mapping_NoDup urls : NoDup (odict_keys (url_to_id_mapping urls)).
Proof.
  induction urls as [|u urls IH] using rev_ind; [apply NoDup_nil_2|].
  rewrite url_to_id_mapping_snoc. by apply odict_set_keys_NoDup.
Qed.

Lemma url_to_id_mapping_elem_of urls k j :
  (k, j) ∈ url_to_id_mapping urls ↔ last_id urls k = Some j.
Proof.
  rewrite <- url_to_id_mapping_get. split.
  - apply odict_elem_of_get, url_to_id_mapping_NoDup.
  - apply odict_get_Some_elem_of.
Qed.

(** *** Sorting by descending score *)

Definition score_ge (x y : string * Q) : Prop := (y.2 <= x.2)%Q.

Lemma insert_desc_Permutation x l : insert_desc x l ≡ₚ x :: l.
Proof.
  induction l as [|y l IH]; simpl; [done|].
  destruct (Qle_bool y.2 x.2); [done|].
  rewrite IH. apply Permutation_swap.
Qed.

Lemma sorted_desc_Permutation l : sorted_desc l ≡ₚ l.
Proof.
  induction l as [|x l IH]; simpl; [done|].
  by rewrite insert_desc_Permutation, IH.
Qed.

Lemma insert_desc_sorted x l :
  StronglySorted score_ge l → StronglySorted score_ge (insert_desc x l).
Proof.
  induction 1 as [|y l Hl IH Hy]; simpl.
  - repeat constructor.
  - destruct (Qle_bool y.2 x.2) eqn:Hle.
    + apply Qle_bool_iff in Hle. constructor; [by constructor|].
      constructor; [done|].
      eapply Forall_impl; [exact Hy|]. intros z Hz. unfold score_ge in *.
      by eapply Qle_trans.
    + assert (Hlt : (x.2 <= y.2)%Q).
      { destruct (Qlt_le_dec x.2 y.2) as [?|Hge]; [by apply Qlt_le_weak|].
        apply Qle_bool_iff in Hge. congruence. }
      constructor; [done|].
      rewrite insert_desc_Permutation. by constructor.
Qed.

Lemma sorted_desc_sorted l : StronglySorted score_ge (sorted_desc l).
Proof.
  induction l as [|x l IH]; simpl; [constructor|by apply insert_desc_sorted].
Qed.

(** *** The last two comprehensions *)

Lemma foldM_node_data g (l : list (string * Q)) acc :
  (∀ kv, kv ∈ l → is_Some (odict_get (nodes g) kv.1)) →
  foldM (fun acc kv => let! d := node_data g kv.1 in Ok (acc ++ [d])) l acc
  = Ok (acc ++ ((λ kv, default ∅ (odict_get (nodes g) kv.1)) <$> l)).
Proof.
  revert acc. induction l as [|kv l IH]; intros acc Hl.
  - simpl. by rewrite app_nil_r.
  - cbn [foldM]. unfold node_data at 1.
    destruct (Hl kv) as [d Hd]; [by left|]. rewrite Hd. cbn [bind].
    rewrite IH by (intros ??; apply Hl; by right).
    rewrite fmap_cons, Hd. simpl. by rewrite <- app_assoc.
Qed.

Lemma foldM_clean_step (os : list (option CrawledObject.t)) acc :
  foldM clean_step (from_option to_dict ∅ <$> os) acc = Ok (acc ++ omap id os).
Proof.
  revert acc. induction os as [|[r|] os IH]; intros acc.
  - simpl. by rewrite app_nil_r.
  - rewrite fmap_cons. cbn [foldM from_option]. unfold clean_step at 1.
    rewrite bool_decide_eq_false_2 by apply to_dict_nonempty.
    rewrite from_dict_to_dict. cbn [bind]. rewrite IH. simpl.
    by rewrite <- app_assoc.
  - rewrite fmap_cons. cbn [foldM from_option]. unfold clean_step at 1.
    rewrite bool_decide_eq_true_2 by done. cbn [bind]. by rewrite IH.
Qed.

Lemma last_record_snoc rs x i :
  last_record (rs ++ [x]) i =
  if decide (CrawledObject.id x = i) then Some x else last_record rs i.
Proof.
  unfold last_record. rewrite filter_app, filter_cons, filter_nil.
  case_decide; [by rewrite last_snoc|by rewrite app_nil_r].
Qed.

Lemma last_record_Some rs i r :
  last_record rs i = Some r → r ∈ rs ∧ CrawledObject.id r = i.
Proof.
  unfold last_record. intros H%last_Some_elem_of.
  by apply list_elem_of_filter in H as [? ?].
Qed.

Lemma last_record_is_Some rs r :
  r ∈ rs → is_Some (last_record rs (CrawledObject.id r)).
Proof.
  induction rs as [|x rs IH] using rev_ind; [by intros ?%elem_of_nil|].
  rewrite last_record_snoc. case_decide; [by eauto|].
  intros [?| ->%list_elem_of_singleton]%elem_of_app; [by apply IH|done].
Qed.

Lemma last_record_NoDup rs r :
  NoDup (CrawledObject.id <$> rs) → r ∈ rs →
  last_record rs (CrawledObject.id r) = Some r.
Proof.
  induction rs as [|x rs IH] using rev_ind; [by intros _ ?%elem_of_nil|].
  rewrite fmap_app. cbn [fmap list_fmap].
  intros [Hnd [Hfresh _]]%NoDup_app Hin. rewrite last_record_snoc.
  apply elem_of_app in Hin as [Hin| ->%list_elem_of_singleton].
  - case_decide as Hid; [|by apply IH]. exfalso.
    apply (Hfresh (CrawledObject.id r)).
    + apply list_elem_of_fmap. by exists r.
    + rewrite Hid. by left.
  - by rewrite decide_True.
Qed.

Lemma omap_last_record_ids rs :
  NoDup (CrawledObject.id <$> rs) →
  omap (last_record rs) (CrawledObject.id <$> rs) = rs.
Proof.
  intros Hnd.
  assert (Hgen : ∀ l, l ⊆ rs → omap (last_record rs) (CrawledObject.id <$> l) = l).
  { induction l as [|x l IH]; [done|]. intros Hsub.
    rewrite fmap_cons. cbn [omap list_omap].
    rewrite last_record_NoDup; [|done|apply Hsub; by left].
    f_equal. apply IH. intros y Hy. apply Hsub. by right. }
  by apply Hgen.
Qed.

Lemma omap_fst {A} (f : string → option A) (l : list (string * Q)) :
  omap (λ kv, f kv.1) l = omap f l.*1.
Proof.
  induction l as [|kv l IH]; [done|]. rewrite fmap_cons. cbn [omap list_omap].
  by rewrite IH.
Qed.

(** *** The graph of a batch *)

(** The graph before the edges are added: the non-error records only. *)
Definition record_nodes (urls : list CrawledObject.t) : list (string * gmap string Value) :=
  nodes (add_nodes_from empty_graph
           ((λ u, (CrawledObject.id u, to_dict u)) <$> non_error urls)).

Lemma build_graph_spec urls :
  (∀ u, u ∈ urls → CrawledObject.is_error u = false →
        CrawledObject.content u ≠ None) →
  ∃ (g : DiGraph) (extra : list string),
    build_graph urls = Ok g
    ∧ nodes g = record_nodes urls ++ ((λ i, (i, ∅)) <$> extra)
    ∧ (∀ i, i ∈ extra →
         odict_get (record_nodes urls) i = None ∧ ∃ j, (j, i) ∈ edges g)
    ∧ (∀ e, e ∈ edges g →
         is_Some (odict_get (nodes g) e.1) ∧ is_Some (odict_get (nodes g) e.2))
    ∧ (∀ e, e ∈ edges g ↔
         e ∈ non_error urls ≫= out_edges (url_to_id_mapping urls)).
Proof.
  intros Hc. unfold build_graph.
  rewrite (foldM_collect_step _ _ [] [] Hc). cbn [bind fst snd app].
  set (g0 := add_nodes_from empty_graph _).
  set (es := non_error urls ≫= _).
  destruct (add_edges_from_spec g0 es) as (extra & Hnodes & Hextra & Hends & Hedges).
  assert (Hes : ∀ e, e ∈ edges (add_edges_from g0 es) ↔ e ∈ es).
  { intros e. rewrite Hedges. unfold g0. rewrite add_nodes_from_edges. simpl.
    split; [by intros [?%elem_of_nil|?]|by right]. }
  exists (add_edges_from g0 es), extra. split_and!; [done|done| | |done].
  - intros i Hi. destruct (Hextra i Hi) as (Hnone & e & He & Hie).
    split; [done|].
    assert (Hsrc : is_Some (odict_get (nodes g0) e.1)).
    { apply list_elem_of_bind in He as (a & Ha & Hina).
      destruct e as [e1 e2]. apply elem_of_out_edges in Ha as [-> _].
      unfold g0. rewrite add_nodes_from_get. apply fmap_is_Some.
      by apply last_record_is_Some. }
    destruct Hie as [-> | ->].
    + rewrite Hnone in Hsrc. by destruct Hsrc.
    + exists e.1. apply Hes. by destruct e.
  - intros e He%Hes. by apply Hends.
Qed.

Lemma record_nodes_get urls i :
  odict_get (record_nodes urls) i = to_dict <$> last_record (non_error urls) i.
Proof. apply add_nodes_from_get. Qed.

Lemma odict_get_extra (extra : list string) i :
  odict_get ((λ i, (i, ∅ : gmap string Value)) <$> extra) i =
  if bool_decide (i ∈ extra) then Some ∅ else None.
Proof.
  induction extra as [|x extra IH]; [done|].
  rewrite fmap_cons. cbn [odict_get]. rewrite IH.
  destruct (String.eqb_spec x i) as [->|Hne].
  - by rewrite bool_decide_eq_true_2 by by left.
  - repeat case_bool_decide; try done.
    + exfalso. match goal with H : ¬ _ ∈ _ :: _ |- _ => apply H end. by right.
    + exfalso. match goal with H : _ ∈ _ :: _ |- _ =>
        apply elem_of_cons in H as [?|?] end; congruence.
Qed.

(** The attributes of the nodes of the graph of a batch. *)
Lemma build_graph_node_data urls g :
  (∀ u, u ∈ urls → CrawledObject.is_error u = false →
        CrawledObject.content u ≠ None) →
  build_graph urls = Ok g →
  ∀ i, is_Some (odict_get (nodes g) i) →
       odict_get (nodes g) i =
       Some (from_option to_dict ∅ (last_record (non_error urls) i)).
Proof.
  intros Hc Hg.
  destruct (build_graph_spec urls Hc) as (g' & extra & Hg' & Hnodes & _).
  rewrite Hg in Hg'. injection Hg' as <-.
  intros i. rewrite Hnodes, odict_get_app, record_nodes_get.
  destruct (last_record (non_error urls) i) as [r|]; simpl; [done|].
  rewrite odict_get_extra. case_bool_decide; [done|]. by intros [? ?].
Qed.

(** What [get_candidates_websites] returns once the graph is built and the
    ranking has given its scores. *)
Lemma get_candidates_websites_ranked pagerank urls top_k g pr :
  (∀ u, u ∈ urls → CrawledObject.is_error u = false →
        CrawledObject.content u ≠ None) →
  build_graph urls = Ok g →
  pagerank g = Ok pr →
  pr.*1 = odict_keys (nodes g) →
  get_candidates_websites pagerank urls top_k =
  Ok (omap (λ kv, last_record (non_error urls) kv.1)
        (PyStr.slice_to (sorted_desc pr) top_k)).
Proof.
  intros Hc Hg Hrank Hpr.
  pose proof (build_graph_node_data urls g Hc Hg) as Hdata.
  unfold get_candidates_websites. rewrite Hg. cbn [bind]. rewrite Hrank. cbn [bind].
  assert (Hkeys : ∀ kv, kv ∈ PyStr.slice_to (sorted_desc pr) top_k →
            is_Some (odict_get (nodes g) kv.1)).
  { intros kv Hkv%slice_to_elem_of. apply odict_get_is_Some.
    rewrite <- Hpr. apply list_elem_of_fmap. exists kv. split; [done|].
    by rewrite <- (sorted_desc_Permutation pr). }
  rewrite (foldM_node_data g _ [] Hkeys). cbn [bind app].
  assert (Hform :
    (λ kv : string * Q, default ∅ (odict_get (nodes g) kv.1))
      <$> PyStr.slice_to (sorted_desc pr) top_k
    = from_option to_dict ∅
      <$> ((λ kv : string * Q, last_record (non_error urls) kv.1)
           <$> PyStr.slice_to (sorted_desc pr) top_k)).
  { rewrite <- list_fmap_compose. apply list_fmap_ext.
    intros n kv Hkv%list_elem_of_lookup_2. simpl.
    by rewrite (Hdata _ (Hkeys kv Hkv)). }
  rewrite Hform, foldM_clean_step. simpl. f_equal.
  generalize (PyStr.slice_to (sorted_desc pr) top_k).
  induction l as [|kv l IH]; [done|]. rewrite fmap_cons. cbn [omap list_omap].
  destruct (last_record (non_error urls) kv.1); simpl; by rewrite IH.
Qed.

(** C1, as the code has it.  For a batch whose non-error records all have
    content (otherwise the substring test raises):
    - the nodes are the ids of the non-error records and the targets of the
      edges; a node carries the dictionary of the last non-error record
      with its id, and no attributes when there is none (an edge target
      that is only the id of error records);
    - there is an edge i -> j exactly when i is the id of a non-error
      record A, and some record B of the batch, error or not, has its
      source in A's content, j being the id the source-to-id mapping holds
      for that source (the last record with this source);
    - when the ranking raises (PageRank's power iteration may fail to
      converge), [get_candidates_websites] raises the same exception;
    - when the ranking gives its scores, one per node in node order, the
      result lists, in order, the records of the nodes that carry one
      among the first [top_k] entries of the scores sorted in descending
      order; and when moreover the ids of the batch are distinct and
      [top_k] is at least the number of nodes of the graph, the result is
      the non-error records, reordered. *)
Theorem get_candidates_websites_ranks_graph_nodes
    (pagerank : DiGraph -> Result (list (string * Q)))
    (urls : list CrawledObject.t) (top_k : Z) :
  (∀ u, u ∈ urls → CrawledObject.is_error u = false →
        CrawledObject.content u ≠ None) →
  ∃ graph : DiGraph,
    build_graph urls = Ok graph
    ∧ (∀ i, i ∈ odict_keys (nodes graph) ↔
         (∃ a, a ∈ urls ∧ CrawledObject.is_error a = false ∧ CrawledObject.id a = i)
         ∨ (∃ j, (j, i) ∈ edges graph))
    ∧ (∀ i, i ∈ odict_keys (nodes graph) →
         odict_get (nodes graph) i =
         Some (from_option to_dict ∅ (last_record (non_error urls) i)))
    ∧ (∀ i j, (i, j) ∈ edges graph ↔
         ∃ a b c, a ∈ urls ∧ b ∈ urls
                  ∧ CrawledObject.is_error a = false
                  ∧ CrawledObject.id a = i
                  ∧ CrawledObject.content a = Some c
                  ∧ PyStr.contains (CrawledObject.source b) c = true
                  ∧ last_id urls (CrawledObject.source b) = Some j)
    ∧ (∀ err, pagerank graph = Raise err →
         get_candidates_websites pagerank urls top_k = Raise err)
    ∧ (∀ pr, pagerank graph = Ok pr → pr.*1 = odict_keys (nodes graph) →
         ∃ res : list CrawledObject.t,
           get_candidates_websites pagerank urls top_k = Ok res
           ∧ res = omap (λ kv, last_record (non_error urls) kv.1)
                        (PyStr.slice_to (sorted_desc pr) top_k)
           ∧ StronglySorted score_ge (sorted_desc pr)
           ∧ sorted_desc pr ≡ₚ pr
           ∧ (NoDup (CrawledObject.id <$> urls) →
              Z.of_nat (length (nodes graph)) ≤ top_k →
              res ≡ₚ non_error urls)).
Proof.
  intros Hc.
  destruct (build_graph_spec urls Hc)
    as (g & extra & Hg & Hnodes & Hextra & Hends & Hedges).
  pose proof (build_graph_node_data urls g Hc Hg) as Hdata.
  exists g. split_and!; try done.
  - (* nodes *)
    intros i. rewrite <- odict_get_is_Some, Hnodes, odict_get_app, record_nodes_get.
    split.
    + destruct (last_record (non_error urls) i) as [r|] eqn:Hr; simpl.
      * intros _. left. apply last_record_Some in Hr as [Hin <-].
        apply list_elem_of_filter in Hin as [? ?]. by exists r.
      * rewrite odict_get_extra. case_bool_decide as Hex; [|by intros [? ?]].
        intros _. right. by apply Hextra.
    + intros [(a & Ha & Hea & <-)|(j & Hj)].
      * destruct (last_record_is_Some (non_error urls) a) as [r ->]; [|by eexists].
        by apply list_elem_of_filter.
      * apply Hends in Hj as [_ Hj]. simpl in Hj.
        by rewrite Hnodes, odict_get_app, record_nodes_get in Hj.
  - (* node data *)
    intros i Hi. by apply Hdata, odict_get_is_Some.
  - (* edges *)
    intros i j. rewrite Hedges, list_elem_of_bind. split.
    + intros (a & (-> & k & c & Hca & Hk & Hhit)%elem_of_out_edges
                & [Hea Ha]%list_elem_of_filter).
      apply url_to_id_mapping_elem_of in Hk.
      destruct (last_id_Some _ _ _ Hk) as (b & Hb & <- & _).
      by exists a, b, c.
    + intros (a & b & c & Ha & Hb & Hea & <- & Hca & Hhit & Hj).
      exists a. split; [|by apply list_elem_of_filter].
      apply elem_of_out_edges. split; [done|].
      exists (CrawledObject.source b), c. split_and!; [done| |done].
      by apply url_to_id_mapping_elem_of.
  - (* the ranking raises *)
    intros err Herr. unfold get_candidates_websites.
    rewrite Hg. cbn [bind]. by rewrite Herr.
  - (* the ranking gives its scores *)
    intros pr Hrank Hpr.
    exists (omap (λ kv, last_record (non_error urls) kv.1)
              (PyStr.slice_to (sorted_desc pr) top_k)).
    split_and!; [by apply (get_candidates_websites_ranked _ _ _ g)|done
                |apply sorted_desc_sorted|apply sorted_desc_Permutation|].
    intros Hnd Hk.
    assert (Hnd' : NoDup (CrawledObject.id <$> non_error urls)).
    { eapply sublist_NoDup; [exact Hnd|]. apply fmap_sublist, sublist_filter. }
    assert (Hlen : length (sorted_desc pr) = length (nodes g)).
    { rewrite sorted_desc_Permutation, <- (length_fmap fst), Hpr.
      unfold odict_keys. by rewrite length_fmap. }
    unfold PyStr.slice_to. destruct (Z.leb_spec 0 top_k); [|lia].
    rewrite take_ge by lia.
    rewrite (sorted_desc_Permutation pr), omap_fst, Hpr, Hnodes.
    unfold odict_keys, record_nodes.
    rewrite (add_nodes_from_distinct _ Hnd'), fmap_app, <- !list_fmap_compose.
    rewrite omap_app.
    change ((fst ∘ (λ u, (CrawledObject.id u, to_dict u))) <$> non_error urls)
      with (CrawledObject.id <$> non_error urls).
    rewrite (omap_last_record_ids _ Hnd').
    assert (Hnone : omap (last_record (non_error urls))
                      ((fst ∘ (λ i, (i, ∅ : gmap string Value))) <$> extra) = []).
    { assert (Hall : ∀ i, i ∈ extra → last_record (non_error urls) i = None).
      { intros i [Hi _]%Hextra. rewrite record_nodes_get in Hi.
        by destruct (last_record (non_error urls) i). }
      clear -Hall. induction extra as [|x extra IH]; [done|].
      rewrite fmap_cons. cbn [omap list_omap]. simpl.
      rewrite Hall by by left. apply IH. intros ??. apply Hall. by right. }
    rewrite Hnone. by rewrite app_nil_r.
Qed.

(** A ranking for the examples, in place of PageRank: the number of edges
    that end in the node.  It gives one score per node, in node order, and
    never raises. *)
Definition indegree_rank (g : DiGraph) : Result (list (string * Q)) :=
  Ok ((λ n, (n.1, inject_Z (Z.of_nat (length (filter (λ e, e.2 = n.1) (edges g))))))
        <$> nodes g).

Lemma indegree_rank_keys g pr :
  indegree_rank g = Ok pr → pr.*1 = odict_keys (nodes g).
Proof.
  intros [= <-]. unfold odict_keys. by rewrite <- list_fmap_compose.
Qed.

(** A ranking that does not converge. *)
Definition diverging_rank (g : DiGraph) : Result (list (string * Q)) :=
  Raise "PowerIterationFailedConvergence".

Definition web_record (i src text : string) : CrawledObject.t :=
  CrawledObject.mk i src (Some text) (title_source src src) false false None WEB.

Definition failed_record (i src err : string) : CrawledObject.t :=
  CrawledObject.mk i src None (title_source src src) false true (Some err) WEB.

(** The scenario of the specification: A refers to B, B refers to C. *)
Definition batch_abc : list CrawledObject.t :=
  [ web_record "A" "http://s.test/a" "Go to http://s.test/b for more";
    web_record "B" "http://s.test/b" "Go on to http://s.test/c";
    web_record "C" "http://s.test/c" "The end" ].

Lemma batch_abc_content u :
  u ∈ batch_abc → CrawledObject.is_error u = false → CrawledObject.content u ≠ None.
Proof.
  intros Hu _. unfold batch_abc in Hu.
  repeat (apply elem_of_cons in Hu as [->|Hu]; [done|]).
  by apply elem_of_nil in Hu.
Qed.

Lemma get_candidates_websites_ranks_graph_nodes_witness :
  ∃ graph : DiGraph,
    build_graph batch_abc = Ok graph
    ∧ (∀ i, i ∈ odict_keys (nodes graph) ↔
         (∃ a, a ∈ batch_abc ∧ CrawledObject.is_error a = false ∧ CrawledObject.id a = i)
         ∨ (∃ j, (j, i) ∈ edges graph))
    ∧ (∀ i, i ∈ odict_keys (nodes graph) →
         odict_get (nodes graph) i =
         Some (from_option to_dict ∅ (last_record (non_error batch_abc) i)))
    ∧ (∀ i j, (i, j) ∈ edges graph ↔
         ∃ a b c, a ∈ batch_abc ∧ b ∈ batch_abc
                  ∧ CrawledObject.is_error a = false
                  ∧ CrawledObject.id a = i
                  ∧ CrawledObject.content a = Some c
                  ∧ PyStr.contains (CrawledObject.source b) c = true
                  ∧ last_id batch_abc (CrawledObject.source b) = Some j)
    ∧ (∀ err, indegree_rank graph = Raise err →
         get_candidates_websites indegree_rank batch_abc 2 = Raise err)
    ∧ (∀ pr, indegree_rank graph = Ok pr → pr.*1 = odict_keys (nodes graph) →
         ∃ res : list CrawledObject.t,
           get_candidates_websites indegree_rank batch_abc 2 = Ok res
           ∧ res = omap (λ kv, last_record (non_error batch_abc) kv.1)
                        (PyStr.slice_to (sorted_desc pr) 2)
           ∧ StronglySorted score_ge (sorted_desc pr)
           ∧ sorted_desc pr ≡ₚ pr
           ∧ (NoDup (CrawledObject.id <$> batch_abc) →
              Z.of_nat (length (nodes graph)) ≤ 2 →
              res ≡ₚ non_error batch_abc)).
Proof.
  apply (get_candidates_websites_ranks_graph_nodes indegree_rank batch_abc 2).
  exact batch_abc_content.
Defined.

Example rank_abc :
  (let! top2 := get_candidates_websites indegree_rank batch_abc 2 in
   let! top5 := get_candidates_websites indegree_rank batch_abc 5 in
   let! none := get_candidates_websites indegree_rank [] 2 in
   Ok (CrawledObject.id <$> top2, CrawledObject.id <$> top5, none))
  = Ok (["B"; "C"], ["B"; "C"; "A"], []).
Proof. by vm_compute. Qed.

Example rank_abc_not_converged :
  get_candidates_websites diverging_rank batch_abc 2
  = Raise "PowerIterationFailedConvergence".
Proof. by vm_compute. Qed.

(** A page that refers to a page whose crawl failed. *)
Definition page_x : CrawledObject.t :=
  web_record "x" "http://s.test/x" "See http://s.test/gone".
Definition page_gone : CrawledObject.t :=
  failed_record "g" "http://s.test/gone" "TimeoutException".

(** C1, as stated, fails: the graph of the batch has a node for the error
    record (with no attributes) and an edge to it.  For a ranking that puts
    that node first, as PageRank does (it is the only node with an incoming
    edge), [top_k = 1] returns nothing although the batch has one non-error
    record. *)
Lemma build_graph_links_to_error_record :
  CrawledObject.is_error page_gone = true
  ∧ non_error [page_x; page_gone] = [page_x]
  ∧ build_graph [page_x; page_gone]
    = Ok {| nodes := [("x", to_dict page_x); ("g", ∅)]; edges := [("x", "g")] |}
  ∧ (∀ (pagerank : DiGraph -> Result (list (string * Q))) (sx sg : Q),
       pagerank {| nodes := [("x", to_dict page_x); ("g", ∅)]; edges := [("x", "g")] |}
         = Ok [("x", sx); ("g", sg)] →
       (sx < sg)%Q →
       get_candidates_websites pagerank [page_x; page_gone] 1 = Ok []).
Proof.
  assert (Hg : build_graph [page_x; page_gone]
    = Ok {| nodes := [("x", to_dict page_x); ("g", ∅)]; edges := [("x", "g")] |})
    by (by vm_compute).
  split_and!; [done|done|done|].
  intros pagerank sx sg Hpr Hlt. unfold get_candidates_websites.
  rewrite Hg. cbn [bind]. rewrite Hpr.
  cbn [bind sorted_desc foldr insert_desc snd].
  destruct (Qle_bool sg sx) eqn:Hle.
  { apply Qle_bool_iff in Hle. exfalso. by eapply Qlt_not_le. }
  reflexivity.
Qed.

(** * Further properties of the loader *)

(** ** URL normalization *)

(** [c in s] for a single character. *)
Fixpoint string_mem (c : ascii) (s : string) : bool :=
  match s with
  | EmptyString => false
  | String a s' => Ascii.eqb a c || string_mem c s'
  end.

Lemma contains_char c s : PyStr.contains (String c EmptyString) s = string_mem c s.
Proof.
  induction s as [|a s IH]; [done|].
  cbn [PyStr.contains string_mem String.prefix]. rewrite IH.
  destruct (ascii_dec c a) as [->|Hne].
  - rewrite Ascii.eqb_refl. by destruct s.
  - by destruct (Ascii.eqb_spec a c); [congruence|].
Qed.

Lemma split_head_no_char c s : string_mem c (PyStr.split_head c s) = false.
Proof.
  induction s as [|a s IH]; [done|]. cbn [PyStr.split_head].
  destruct (Ascii.eqb a c) eqn:Hac; [done|].
  cbn [string_mem]. by rewrite Hac.
Qed.

Lemma split_head_id c s : string_mem c s = false → PyStr.split_head c s = s.
Proof.
  induction s as [|a s IH]; [done|]. cbn [PyStr.split_head string_mem].
  destruct (Ascii.eqb a c); [done|]. simpl. intros ?. by rewrite IH.
Qed.

Lemma rstrip_mem x c s :
  string_mem x (PyStr.rstrip c s) = true → string_mem x s = true.
Proof.
  induction s as [|a s IH]; [done|]. cbn [PyStr.rstrip].
  destruct (String.eqb (PyStr.rstrip c s) "" && Ascii.eqb a c); [done|].
  cbn [string_mem]. intros [->|?]%orb_true_iff; [done|].
  rewrite IH by done. apply orb_true_r.
Qed.

Lemma rstrip_no_trailing c s :
  PyStr.endswith (PyStr.rstrip c s) (String c EmptyString) = false.
Proof.
  induction s as [|a s IH]; [done|]. cbn [PyStr.rstrip].
  assert (Hone : ∀ r, String.eqb (String a r) (String c EmptyString)
                      = Ascii.eqb a c && String.eqb r EmptyString).
  { intros r. cbn [String.eqb]. by destruct (Ascii.eqb a c), r. }
  destruct (String.eqb (PyStr.rstrip c s) "" && Ascii.eqb a c) eqn:Hb; [done|].
  cbn [PyStr.endswith]. rewrite IH, orb_false_r, Hone, andb_comm. exact Hb.
Qed.

Lemma rstrip_id c s :
  PyStr.endswith s (String c EmptyString) = false → PyStr.rstrip c s = s.
Proof.
  induction s as [|a s IH]; [done|].
  cbn [PyStr.endswith PyStr.rstrip]. intros [Hne Hs]%orb_false_iff.
  rewrite IH by done. destruct (String.eqb_spec s "") as [->|?]; [|done].
  cbn [String.eqb] in Hne. cbn [andb]. by destruct (Ascii.eqb a c).
Qed.

Lemma normalize_no_hash url : PyStr.contains "#" (normalize url) = false.
Proof.
  rewrite contains_char. unfold normalize.
  destruct (string_mem "#" (PyStr.rstrip "/" (PyStr.split_head "#" url))) eqn:Hm;
    [|done].
  apply rstrip_mem in Hm. by rewrite split_head_no_char in Hm.
Qed.

Lemma normalize_no_slash url : PyStr.endswith (normalize url) "/" = false.
Proof. apply rstrip_no_trailing. Qed.

(** A normalized URL has no fragment mark and no trailing slash, and
    normalizing it again changes nothing. *)
Theorem normalize_canonical (url : string) :
  PyStr.contains "#" (normalize url) = false
  ∧ PyStr.endswith (normalize url) "/" = false
  ∧ normalize (normalize url) = normalize url.
Proof.
  pose proof (normalize_no_hash url) as Hh.
  pose proof (normalize_no_slash url) as Hs.
  split_and!; [done|done|].
  rewrite contains_char in Hh.
  unfold normalize at 1. rewrite split_head_id by done. by apply rstrip_id.
Qed.

(** ** The exploration loop, by invariant *)

(** An invariant of the two lists that every iteration keeps holds when the
    loop ends, and the loop ends with an empty queue or with [max_num]
    visited URLs. *)
Lemma while_urls_to_visit_inv W max_num base_url
    (I : list string → list string → Prop) :
  (∀ vis cur rest, I vis (cur :: rest) → cur ∈ vis → I vis rest) →
  (∀ vis cur rest,
     I vis (cur :: rest) → cur ∉ vis → Z.of_nat (length vis) < max_num →
     I (vis ++ [cur])
       (list_of_set W (rest ++ get_outsource_urls W cur base_url))) →
  ∀ budget vis queue,
    max_num - Z.of_nat (length vis) ≤ Z.of_nat budget →
    I vis queue →
    ∃ vis' queue',
      while_urls_to_visit W max_num base_url budget vis queue = Some vis'
      ∧ I vis' queue'
      ∧ (queue' = [] ∨ max_num ≤ Z.of_nat (length vis')).
Proof.
  intros Hskip Hvisit. induction budget as [|b IHb]; intros vis queue Hb;
    induction queue as [|cur rest IHq]; intros HI;
    rewrite while_urls_to_visit_unfold.
  1,3: exists vis, []; split_and!; [done|done|by left].
  - destruct (Z.leb_spec max_num (Z.of_nat (length vis))); [|lia].
    exists vis, (cur :: rest). split_and!; [done|done|by right].
  - destruct (Z.leb_spec max_num (Z.of_nat (length vis))).
    { exists vis, (cur :: rest). split_and!; [done|done|by right]. }
    case_bool_decide as Hin; [by eapply IHq, Hskip|].
    apply IHb; [rewrite length_app; simpl; lia|by apply Hvisit].
Qed.

(** [get_all_urls] in terms of the visited list the loop ends with. *)
Lemma get_all_urls_inv W base_url max_num
    (I : list string → list string → Prop) :
  (∀ vis cur rest, I vis (cur :: rest) → cur ∈ vis → I vis rest) →
  (∀ vis cur rest,
     I vis (cur :: rest) → cur ∉ vis → Z.of_nat (length vis) < max_num →
     I (vis ++ [cur])
       (list_of_set W (rest ++ get_outsource_urls W cur (normalize base_url)))) →
  I [] [normalize base_url] →
  ∃ vis queue',
    get_all_urls W base_url max_num = Some (sorted (PyStr.slice_to vis max_num))
    ∧ I vis queue'
    ∧ (queue' = [] ∨ max_num ≤ Z.of_nat (length vis)).
Proof.
  intros Hskip Hvisit Hinit. unfold get_all_urls.
  destruct (while_urls_to_visit_inv W max_num (normalize base_url) I Hskip Hvisit
              (Z.to_nat max_num) [] [normalize base_url])
    as (vis & queue' & Heq & HI & Hexit); [simpl; lia|done|].
  rewrite Heq. by exists vis, queue'.
Qed.

Lemma foldl_outsource_step_normalized base_url links acc x :
  x ∈ foldl (outsource_step base_url) acc links →
  x ∈ acc ∨ ∃ joined, x = normalize joined.
Proof.
  revert acc. induction links as [|link links IH]; intros acc; simpl; [by left|].
  intros [Hin|?]%IH; [|by right].
  unfold outsource_step in Hin. destruct link as [joined|]; [|by left].
  destruct (_check_url (normalize joined) base_url); [|by left].
  apply elem_of_app in Hin as [?| ->%list_elem_of_singleton]; [by left|].
  right. by exists joined.
Qed.

(** Whatever the pages link to, the list [get_all_urls] returns has no
    repeated URL, and no URL in it has a fragment mark or a trailing
    slash. *)
Theorem get_all_urls_distinct_normalized
    (W : Web) (base_url : string) (max_num : Z) :
  set_order_ok (list_of_set W) →
  ∃ urls,
    get_all_urls W base_url max_num = Some urls
    ∧ NoDup urls
    ∧ ∀ u, u ∈ urls →
        PyStr.contains "#" u = false ∧ PyStr.endswith u "/" = false.
Proof.
  intros Hset.
  pose (N := λ u : string, ∃ joined, u = normalize joined).
  destruct (get_all_urls_inv W base_url max_num
              (λ vis queue, NoDup vis ∧ Forall N vis ∧ Forall N queue))
    as (vis & queue' & Heq & (Hnd & HN & _) & _).
  - intros vis cur rest (? & ? & [_ ?]%Forall_cons) _. done.
  - intros vis cur rest (Hnd & Hvis & [Hcur Hrest]%Forall_cons) Hnin _.
    split_and!.
    + apply NoDup_app. split_and!; [done| |apply NoDup_singleton].
      intros x Hx ->%list_elem_of_singleton. done.
    + apply Forall_app. split; [done|by apply Forall_singleton].
    + apply Forall_forall. intros x Hx.
      apply (proj1 (proj2 (Hset _) _)) in Hx.
      apply elem_of_app in Hx as [Hx|Hx].
      * by eapply Forall_forall in Hrest.
      * unfold get_outsource_urls in Hx.
        apply (proj1 (proj2 (Hset _) _)) in Hx.
        destruct (page_links W cur) as [links|]; [|by apply elem_of_nil in Hx].
        by apply foldl_outsource_step_normalized in Hx as [?%elem_of_nil|?].
  - split_and!; [apply NoDup_nil_2|done|].
    apply Forall_singleton. by exists base_url.
  - eexists. split; [exact Heq|]. split.
    + unfold sorted. rewrite merge_sort_Permutation. unfold PyStr.slice_to.
      destruct (0 <=? max_num);
        (eapply sublist_NoDup; [exact Hnd|apply sublist_take]).
    + intros u Hu%sorted_elem_of%slice_to_elem_of.
      destruct (proj1 (Forall_forall _ _) HN u Hu) as [joined ->].
      split; [apply normalize_no_hash|apply normalize_no_slash].
Qed.

Lemma get_all_urls_distinct_normalized_witness :
  ∃ urls,
    get_all_urls (site desc_order) "http://s.test/#frag" 10 = Some urls
    ∧ NoDup urls
    ∧ ∀ u, u ∈ urls →
        PyStr.contains "#" u = false ∧ PyStr.endswith u "/" = false.
Proof.
  apply (get_all_urls_distinct_normalized (site desc_order) "http://s.test/#frag" 10).
  exact desc_order_ok.
Defined.

(** ** What the exploration reaches *)

(** The links of a page that qualify, before [list(set(..))]. *)
Definition candidate_links (links_of : string -> Result (list (Result string)))
    (curr_url base_url : string) : list string :=
  match links_of curr_url with
  | Ok links => foldl (outsource_step base_url) [] links
  | Raise _ => []
  end.

(** The pages that qualifying links lead to from the base URL. *)
Inductive reachable (links_of : string -> Result (list (Result string)))
    (base_url : string) : string -> Prop :=
| reach_base : reachable links_of base_url base_url
| reach_link v x :
    reachable links_of base_url v →
    x ∈ candidate_links links_of v base_url →
    reachable links_of base_url x.

Lemma get_outsource_urls_elem_of W curr_url base_url x :
  set_order_ok (list_of_set W) →
  x ∈ get_outsource_urls W curr_url base_url
  ↔ x ∈ candidate_links (page_links W) curr_url base_url.
Proof. intros Hset. apply Hset. Qed.

(** The visited list the loop of [get_all_urls] ends with. *)
Lemma get_all_urls_visited W base_url max_num :
  set_order_ok (list_of_set W) →
  ∃ vis,
    get_all_urls W base_url max_num = Some (sorted (PyStr.slice_to vis max_num))
    ∧ NoDup vis
    ∧ Z.of_nat (length vis) ≤ Z.max max_num 0
    ∧ (∀ u, u ∈ vis → reachable (page_links W) (normalize base_url) u)
    ∧ (Z.of_nat (length vis) < max_num →
       ∀ u, reachable (page_links W) (normalize base_url) u → u ∈ vis).
Proof.
  intros Hset.
  set (b := normalize base_url).
  set (R := reachable (page_links W) b).
  destruct (get_all_urls_inv W base_url max_num
              (λ vis queue,
                 NoDup vis
                 ∧ Z.of_nat (length vis) ≤ Z.max max_num 0
                 ∧ Forall R vis ∧ Forall R queue
                 ∧ (b ∈ vis ∨ b ∈ queue)
                 ∧ ∀ v x, v ∈ vis → x ∈ candidate_links (page_links W) v b →
                          x ∈ vis ∨ x ∈ queue))
    as (vis & queue' & Heq & (Hnd & Hlen & HR & _ & Hb & Hcl) & Hexit).
  - intros vis cur rest (Hnd & Hlen & HR & [_ HRq]%Forall_cons & Hb & Hcl) Hin.
    split_and!; try done.
    + destruct Hb as [?|[->|?]%elem_of_cons]; auto.
    + intros v x Hv Hx. destruct (Hcl v x Hv Hx) as [?|[->|?]%elem_of_cons]; auto.
  - intros vis cur rest (Hnd & Hlen & HR & [HRc HRq]%Forall_cons & Hb & Hcl) Hnin Hlt.
    assert (Hq : ∀ x, x ∈ rest ∨ x ∈ candidate_links (page_links W) cur b →
                      x ∈ list_of_set W (rest ++ get_outsource_urls W cur b)).
    { intros x Hx. apply Hset, elem_of_app.
      destruct Hx; [by left|right]. by apply get_outsource_urls_elem_of. }
    split_and!.
    + apply NoDup_app. split_and!; [done| |apply NoDup_singleton].
      intros x Hx ->%list_elem_of_singleton. done.
    + rewrite length_app. simpl. lia.
    + apply Forall_app. split; [done|by apply Forall_singleton].
    + apply Forall_forall. intros x Hx.
      apply (proj1 (proj2 (Hset _) _)), elem_of_app in Hx as [Hx|Hx].
      * by eapply Forall_forall in HRq.
      * apply get_outsource_urls_elem_of in Hx; [|done].
        by eapply reach_link.
    + destruct Hb as [?|[->|?]%elem_of_cons].
      * left. apply elem_of_app. by left.
      * left. apply elem_of_app. right. by left.
      * right. apply Hq. by left.
    + intros v x [Hv| ->%list_elem_of_singleton]%elem_of_app Hx.
      * destruct (Hcl v x Hv Hx) as [?|[->|?]%elem_of_cons].
        -- left. apply elem_of_app. by left.
        -- left. apply elem_of_app. right. by left.
        -- right. apply Hq. by left.
      * right. apply Hq. by right.
  - split_and!; [apply NoDup_nil_2|simpl; lia|done| | |].
    + apply Forall_singleton. constructor.
    + right. by left.
    + by intros v x ?%elem_of_nil.
  - exists vis. split_and!; [done|done|done| |].
    + intros u Hu. by eapply Forall_forall in HR.
    + intros Hlt u Hu. destruct Hexit as [-> | ?]; [|lia].
      induction Hu as [|v x _ IH Hx].
      * by destruct Hb as [?|?%elem_of_nil].
      * by destruct (Hcl v x IH Hx) as [?|?%elem_of_nil].
Qed.

Lemma slice_to_all {A} (l : list A) k :
  Z.of_nat (length l) ≤ Z.max k 0 →
  Z.of_nat (length (PyStr.slice_to l k)) < k →
  PyStr.slice_to l k = l ∧ Z.of_nat (length l) < k.
Proof.
  unfold PyStr.slice_to. destruct (Z.leb_spec 0 k).
  - rewrite length_take. intros _ Hlt.
    assert (length l ≤ Z.to_nat k)%nat by lia.
    split; [by apply take_ge|lia].
  - rewrite length_take. lia.
Qed.

(** When [get_all_urls] returns fewer than [max_num] URLs, it has returned
    every page that qualifying links lead to from the normalized base URL,
    and nothing else. *)
Theorem get_all_urls_exhaustive
    (W : Web) (base_url : string) (max_num : Z) (urls : list string) :
  set_order_ok (list_of_set W) →
  get_all_urls W base_url max_num = Some urls →
  Z.of_nat (length urls) < max_num →
  ∀ u, u ∈ urls ↔ reachable (page_links W) (normalize base_url) u.
Proof.
  intros Hset Hget Hlt.
  destruct (get_all_urls_visited W base_url max_num Hset)
    as (vis & Heq & _ & Hlen & Hsound & Hcomplete).
  rewrite Hget in Heq. injection Heq as ->.
  rewrite sorted_length in Hlt.
  destruct (slice_to_all vis max_num Hlen Hlt) as [Hall Hlt'].
  intros u. rewrite sorted_elem_of, Hall. split; [apply Hsound|by apply Hcomplete].
Qed.

Lemma get_all_urls_exhaustive_witness :
  "http://s.test/b/c"
    ∈ ["http://s.test"; "http://s.test/a"; "http://s.test/b"; "http://s.test/b/c"]
  ↔ reachable (page_links (site desc_order)) (normalize "http://s.test/#frag")
      "http://s.test/b/c".
Proof.
  apply (get_all_urls_exhaustive (site desc_order) "http://s.test/#frag" 10).
  - exact desc_order_ok.
  - by vm_compute.
  - simpl. lia.
Defined.

(** When one run of [get_all_urls] returns fewer than [max_num] URLs, a run
    on the same pages under any other hash order returns the same list. *)
Theorem get_all_urls_order_independent_below_max
    (W : Web) (order : list string -> list string)
    (base_url : string) (max_num : Z) (urls : list string) :
  set_order_ok (list_of_set W) →
  set_order_ok order →
  get_all_urls W base_url max_num = Some urls →
  Z.of_nat (length urls) < max_num →
  get_all_urls {| page_links := page_links W; list_of_set := order |}
    base_url max_num = Some urls.
Proof.
  intros Hset Hset' Hget Hlt.
  destruct (get_all_urls_visited W base_url max_num Hset)
    as (vis & Heq & Hnd & Hlen & Hsound & Hcomplete).
  destruct (get_all_urls_visited
              {| page_links := page_links W; list_of_set := order |}
              base_url max_num Hset')
    as (vis' & Heq' & Hnd' & Hlen' & Hsound' & Hcomplete').
  simpl in *.
  rewrite Hget in Heq. injection Heq as ->.
  rewrite sorted_length in Hlt.
  destruct (slice_to_all vis max_num Hlen Hlt) as [Hall Hlt'].
  assert (Hsub : vis' ⊆+ vis).
  { apply NoDup_submseteq; [done|]. intros u Hu. by apply Hcomplete, Hsound'. }
  apply submseteq_length in Hsub.
  assert (Hperm : vis' ≡ₚ vis).
  { apply NoDup_Permutation; [done|done|]. intros u. split.
    - intros Hu. by apply Hcomplete, Hsound'.
    - intros Hu. apply Hcomplete'; [lia|by apply Hsound]. }
  rewrite Heq', Hall. f_equal.
  assert (Hall' : PyStr.slice_to vis' max_num = vis').
  { unfold PyStr.slice_to. destruct (Z.leb_spec 0 max_num); [|lia].
    apply take_ge. lia. }
  rewrite Hall'. unfold sorted.
  apply (Sorted_unique String.le).
  - apply Sorted_merge_sort; apply _.
  - apply Sorted_merge_sort; apply _.
  - by rewrite !merge_sort_Permutation.
Qed.

Lemma get_all_urls_order_independent_below_max_witness :
  get_all_urls {| page_links := page_links (site desc_order); list_of_set := asc_order |}
    "http://s.test/#frag" 10
  = Some ["http://s.test"; "http://s.test/a"; "http://s.test/b"; "http://s.test/b/c"].
Proof.
  apply (get_all_urls_order_independent_below_max (site desc_order) asc_order
           "http://s.test/#frag" 10).
  - exact desc_order_ok.
  - exact asc_order_ok.
  - by vm_compute.
  - simpl. lia.
Defined.

(** ** Candidate links *)

(** A link qualifies exactly when it starts with the base URL, is not the
    base URL, and contains none of the denylisted extensions; the test
    that the link is not empty never decides. *)
Theorem _check_url_iff (full_url base_url : string) :
  _check_url full_url base_url = true
  ↔ PyStr.startswith full_url base_url = true
    ∧ full_url ≠ base_url
    ∧ ∀ kw, kw ∈ kw_list → PyStr.contains kw full_url = false.
Proof.
  split; [apply _check_url_true|].
  intros (Hp & Hne & Hkw). unfold _check_url.
  rewrite Hp. cbn [andb].
  assert (Hnonempty : String.eqb full_url "" = false).
  { destruct (String.eqb_spec full_url "") as [->|]; [|done].
    exfalso. apply Hne. unfold PyStr.startswith in Hp. by destruct base_url. }
  rewrite Hnonempty. cbn [negb andb].
  assert (Hex : existsb (λ kw, PyStr.contains kw full_url) kw_list = false).
  { destruct (existsb _ kw_list) eqn:Hex; [|done].
    apply existsb_exists in Hex as (kw & Hin%list_elem_of_In & Hc).
    rewrite Hkw in Hc; done. }
  rewrite Hex. cbn [negb andb].
  destruct (String.eqb_spec full_url base_url); done.
Qed.

(** The links [get_outsource_urls] returns are distinct, each is a
    normalized URL that qualifies, and each comes from an anchor of the
    page; a page whose request fails gives none. *)
Theorem get_outsource_urls_links (W : Web) (curr_url base_url : string) :
  set_order_ok (list_of_set W) →
  NoDup (get_outsource_urls W curr_url base_url)
  ∧ (∀ x, x ∈ get_outsource_urls W curr_url base_url →
       _check_url x base_url = true
       ∧ ∃ links joined,
           page_links W curr_url = Ok links
           ∧ Ok joined ∈ links ∧ x = normalize joined)
  ∧ (∀ links joined,
       page_links W curr_url = Ok links → Ok joined ∈ links →
       _check_url (normalize joined) base_url = true →
       normalize joined ∈ get_outsource_urls W curr_url base_url)
  ∧ (∀ err, page_links W curr_url = Raise err →
       get_outsource_urls W curr_url base_url = []).
Proof.
  intros Hset.
  assert (Hfold : ∀ links acc x,
            x ∈ foldl (outsource_step base_url) acc links ↔
            x ∈ acc ∨ ∃ joined, Ok joined ∈ links ∧ x = normalize joined
                                ∧ _check_url x base_url = true).
  { induction links as [|link links IH]; intros acc x; simpl.
    - split; [by left|]. intros [?|(? & ?%elem_of_nil & _)]; done.
    - rewrite IH. unfold outsource_step at 1. split.
      + intros [Hin|(j & Hj & -> & Hc)].
        * destruct link as [joined|]; [|by left].
          destruct (_check_url (normalize joined) base_url) eqn:Hc; [|by left].
          apply elem_of_app in Hin as [?| ->%list_elem_of_singleton]; [by left|].
          right. exists joined. split_and!; [by left|done|done].
        * right. exists j. split_and!; [by right|done|done].
      + intros [Hin|(j & [Hj|Hj]%elem_of_cons & -> & Hc)].
        * left. destruct link as [joined|]; [|done].
          destruct (_check_url _ _); [|done]. apply elem_of_app. by left.
        * left. subst link. rewrite Hc. apply elem_of_app. right. by left.
        * right. by exists j. }
  split_and!.
  - apply Hset.
  - intros x Hx%get_outsource_urls_elem_of; [|done].
    unfold candidate_links in Hx.
    destruct (page_links W curr_url) as [links|]; [|by apply elem_of_nil in Hx].
    apply Hfold in Hx as [?%elem_of_nil|(j & Hj & -> & Hc)]; [done|].
    split; [done|]. by exists links, j.
  - intros links joined Hl Hj Hc. apply get_outsource_urls_elem_of; [done|].
    unfold candidate_links. rewrite Hl. apply Hfold. right. by exists joined.
  - intros err Herr. unfold get_outsource_urls. rewrite Herr.
    destruct (list_of_set W []) as [|x l] eqn:Hl; [done|].
    assert (x ∈ list_of_set W []) as Hx by (rewrite Hl; by left).
    by apply (proj1 (proj2 (Hset _) _)), elem_of_nil in Hx.
Qed.

Lemma get_outsource_urls_links_witness :
  NoDup (get_outsource_urls (site asc_order) "http://s.test" "http://s.test")
  ∧ (∀ x, x ∈ get_outsource_urls (site asc_order) "http://s.test" "http://s.test" →
       _check_url x "http://s.test" = true
       ∧ ∃ links joined,
           page_links (site asc_order) "http://s.test" = Ok links
           ∧ Ok joined ∈ links ∧ x = normalize joined)
  ∧ (∀ links joined,
       page_links (site asc_order) "http://s.test" = Ok links → Ok joined ∈ links →
       _check_url (normalize joined) "http://s.test" = true →
       normalize joined ∈ get_outsource_urls (site asc_order) "http://s.test" "http://s.test")
  ∧ (∀ err, page_links (site asc_order) "http://s.test" = Raise err →
       get_outsource_urls (site asc_order) "http://s.test" "http://s.test" = []).
Proof.
  apply (get_outsource_urls_links (site asc_order) "http://s.test" "http://s.test").
  exact asc_order_ok.
Defined.

(** ** Local files *)

(** The record [crawl_file] returns when the [try] raises. *)
Definition file_error_record (F : FileSystem) (local_obj : DocObject.t) (err : string)
    : CrawledObject.t :=
  CrawledObject.mk (DocObject.id local_obj) (DocObject.source local_obj)
    None
    (<["title" := path_name F (DocObject.source local_obj)]> ∅)
    false true (Some err) FILE.

(** The file type [crawl_file] dispatches on. *)
Definition file_type_of (F : FileSystem) (local_obj : DocObject.t) : string :=
  PyStr.lstrip "." (path_suffix F (DocObject.source local_obj)).

Definition ocr_types : list string := ["pdf"; "png"; "jpg"; "jpeg"; "pptx"; "ppt"].

Definition static_types : list string :=
  ["html"; "pdf"; "doc"; "docx"; "xlsx"; "xls"; "txt"; "md"; "pptx"; "ppt"].

Lemma select_loader_unsupported file_type :
  in_list file_type static_types = false →
  select_loader file_type
  = Raise "Unsupported file type. If you are trying to upload a pdf, make sure it is less than 50MB. Images are only supported with the advanced parser.".
Proof.
  unfold in_list, static_types. cbn [existsb]. rewrite !orb_false_iff.
  intros (Hhtml & Hpdf & Hdoc & Hdocx & Hxlsx & Hxls & Htxt & Hmd & Hpptx & Hppt & _).
  unfold select_loader.
  by rewrite Hpdf, Hdoc, Hdocx, Hxlsx, Hxls, Htxt, Hmd, Hpptx, Hppt.
Qed.

(** [crawl_file] turns a path without a file type, and a file type no
    branch handles, into error records that carry the message of the
    exception; an image without a configured OCR key is such a type. *)
Theorem crawl_file_error_records (F : FileSystem) (local_obj : DocObject.t) :
  (file_type_of F local_obj = "" →
   crawl_file F local_obj
   = file_error_record F local_obj
       ("No file type detected for file: "
        +:+ path_str F (DocObject.source local_obj)))
  ∧ (file_type_of F local_obj ≠ "" →
     in_list (file_type_of F local_obj) static_types = false →
     in_list (file_type_of F local_obj) ocr_types && mistral_configured F = false →
     crawl_file F local_obj
     = file_error_record F local_obj
         "Unsupported file type. If you are trying to upload a pdf, make sure it is less than 50MB. Images are only supported with the advanced parser.").
Proof.
  unfold file_type_of, crawl_file, crawl_file_try, file_error_record. split.
  - intros ->. done.
  - intros Hne Hstatic Hocr.
    destruct (String.eqb_spec
                (PyStr.lstrip "." (path_suffix F (DocObject.source local_obj))) "");
      [done|].
    fold ocr_types. rewrite Hocr.
    assert (Hhtml : String.eqb
              (PyStr.lstrip "." (path_suffix F (DocObject.source local_obj)))
              "html" = false).
    { revert Hstatic. unfold in_list, static_types. cbn [existsb].
      rewrite !orb_false_iff. by intros [? _]. }
    rewrite Hhtml, (select_loader_unsupported _ Hstatic). done.
Qed.

(** A file system for the examples: no OCR key, every file read fails. *)
Definition bare_files : FileSystem :=
  {| MISTRAL_API_KEY := None;
     path_suffix := λ p, if PyStr.endswith p ".png" then ".png" else "";
     path_name := λ p, p;
     path_str := λ p, p;
     ocr_document := λ _ _, Raise "no OCR";
     ocr_image := λ _ _, Raise "no OCR";
     read_html := λ _, Raise "FileNotFoundError";
     loader_load := λ _ _, Raise "FileNotFoundError" |}.

Lemma crawl_file_error_records_witness :
  crawl_file bare_files (DocObject.mk "f1" "scan.png")
  = file_error_record bare_files (DocObject.mk "f1" "scan.png")
      "Unsupported file type. If you are trying to upload a pdf, make sure it is less than 50MB. Images are only supported with the advanced parser.".
Proof.
  apply (crawl_file_error_records bare_files (DocObject.mk "f1" "scan.png"));
    by vm_compute.
Defined.

(** The same file system with other OCR functions. *)
Definition with_ocr (F : FileSystem)
    (doc img : string -> string -> Result (list string)) : FileSystem :=
  {| MISTRAL_API_KEY := MISTRAL_API_KEY F;
     path_suffix := path_suffix F;
     path_name := path_name F;
     path_str := path_str F;
     ocr_document := doc;
     ocr_image := img;
     read_html := read_html F;
     loader_load := loader_load F |}.

(** The same file system with other file readers and loaders. *)
Definition with_readers (F : FileSystem)
    (html : string -> Result Soup)
    (load : LoaderKind -> string -> Result (list string)) : FileSystem :=
  {| MISTRAL_API_KEY := MISTRAL_API_KEY F;
     path_suffix := path_suffix F;
     path_name := path_name F;
     path_str := path_str F;
     ocr_document := ocr_document F;
     ocr_image := ocr_image F;
     read_html := html;
     loader_load := load |}.

Lemma string_app_nil_r (s : string) : s +:+ "" = s.
Proof.
  induction s as [|a s IH]; [done|].
  change (String a s +:+ "") with (String a (s +:+ "")). by rewrite IH.
Qed.

Lemma string_app_assoc (s t u : string) : (s +:+ t) +:+ u = s +:+ (t +:+ u).
Proof.
  induction s as [|a s IH]; [done|].
  change (String a (s +:+ t) +:+ u = String a (s +:+ (t +:+ u))).
  change (String a ((s +:+ t) +:+ u) = String a (s +:+ (t +:+ u))).
  by rewrite IH.
Qed.

(** Which extractor [crawl_file] consults.  Without a configured key the
    OCR service is never called: the record does not depend on it.  With a
    configured key, a PDF, presentation or image goes to the OCR service
    only: the record does not depend on the readers and loaders, and its
    content is the pages' markdown put together with nothing between. *)
Theorem crawl_file_ocr_dispatch (F : FileSystem) (local_obj : DocObject.t) :
  (mistral_configured F = false →
   ∀ doc img, crawl_file (with_ocr F doc img) local_obj = crawl_file F local_obj)
  ∧ (mistral_configured F = true →
     in_list (file_type_of F local_obj) ocr_types = true →
     (∀ html load,
        crawl_file (with_readers F html load) local_obj = crawl_file F local_obj)
     ∧ ∀ pages,
         (if in_list (file_type_of F local_obj) ["pdf"; "pptx"; "ppt"]
          then ocr_document F (path_name F (DocObject.source local_obj))
                 (DocObject.source local_obj)
          else ocr_image F (file_type_of F local_obj)
                 (DocObject.source local_obj)) = Ok pages →
         crawl_file F local_obj
         = file_record local_obj (foldr String.append "" pages)
             (path_name F (DocObject.source local_obj))).
Proof.
  assert (Hcat : ∀ pages acc,
            foldl (λ doc_text page : string, doc_text +:+ page) acc pages
            = acc +:+ foldr String.append "" pages).
  { induction pages as [|p pages IH]; intros acc; cbn [foldl foldr].
    - by rewrite string_app_nil_r.
    - by rewrite IH, string_app_assoc. }
  unfold file_type_of. split.
  - intros Hoff doc img. unfold crawl_file, crawl_file_try, mistral_configured in *.
    cbn [with_ocr MISTRAL_API_KEY path_suffix path_name path_str read_html
         loader_load ocr_document ocr_image].
    rewrite Hoff, !andb_false_r. done.
  - intros Hon Hocr.
    assert (Hne : String.eqb
              (PyStr.lstrip "." (path_suffix F (DocObject.source local_obj))) ""
              = false).
    { destruct (String.eqb_spec
                  (PyStr.lstrip "." (path_suffix F (DocObject.source local_obj))) "")
        as [Heq|]; [|done].
      rewrite Heq in Hocr. done. }
    split.
    + intros html load. unfold crawl_file, crawl_file_try, mistral_configured in *.
      cbn [with_readers MISTRAL_API_KEY path_suffix path_name path_str read_html
           loader_load ocr_document ocr_image].
      fold ocr_types. by rewrite Hne, Hocr, Hon.
    + intros pages Hpages. unfold crawl_file, crawl_file_try.
      fold ocr_types. rewrite Hne, Hocr, Hon. cbn [andb].
      rewrite Hpages. cbn [bind]. by rewrite Hcat.
Qed.

(** The text of a local HTML file: every anchor-linked string gives a line
    with its raw href (the word None when the anchor has none), whatever the
    href points to, and any other string gives itself unless it is blank. *)
Definition html_line (s : NavigableString) : list string :=
  match find_parent_a s with
  | Some href => [text s +:+ " " +:+ default "None" href]
  | None => if PyStr.strip_nonempty (text s) then [text s] else []
  end.

Lemma foldl_html_text_step ss acc :
  foldl html_text_step acc ss = acc ++ (ss ≫= html_line).
Proof.
  revert acc. induction ss as [|s ss IH]; intros acc; cbn [foldl].
  - by rewrite app_nil_r.
  - rewrite IH, bind_cons, app_assoc. f_equal.
    unfold html_text_step, html_line.
    destruct (find_parent_a s); [done|].
    destruct (PyStr.strip_nonempty (text s)); by rewrite ?app_nil_r.
Qed.

(** For a local file of type html (no OCR route applies to it) that opens
    and parses, [crawl_file] returns a non-error record whose content is
    the lines of [html_line] for the strings of the page, joined by line
    feeds, and whose title is the first title element, or the file name
    when there is none. *)
Theorem crawl_file_html (F : FileSystem) (local_obj : DocObject.t) (soup : Soup) :
  file_type_of F local_obj = "html" →
  read_html F (DocObject.source local_obj) = Ok soup →
  crawl_file F local_obj
  = file_record local_obj
      (PyStr.join PyStr.newline (strings soup ≫= html_line))
      (match titles soup with
       | t :: _ => t
       | [] => path_name F (DocObject.source local_obj)
       end).
Proof.
  unfold file_type_of, crawl_file, crawl_file_try. intros -> Hread.
  cbn [String.eqb in_list existsb]. simpl (in_list _ _). cbn [andb].
  rewrite Hread. cbn [bind]. by rewrite foldl_html_text_step.
Qed.

Definition html_files : FileSystem :=
  {| MISTRAL_API_KEY := Some "key";
     path_suffix := λ _, ".html";
     path_name := λ p, p;
     path_str := λ p, p;
     ocr_document := λ _ _, Raise "no OCR";
     ocr_image := λ _ _, Raise "no OCR";
     read_html := λ _, Ok page_a;
     loader_load := λ _ _, Raise "FileNotFoundError" |}.

Lemma crawl_file_html_witness :
  crawl_file html_files (DocObject.mk "f2" "index.html")
  = file_record (DocObject.mk "f2" "index.html")
      (PyStr.join PyStr.newline (strings page_a ≫= html_line))
      (match titles page_a with
       | t :: _ => t
       | [] => path_name html_files (DocObject.source (DocObject.mk "f2" "index.html"))
       end).
Proof.
  apply (crawl_file_html html_files (DocObject.mk "f2" "index.html") page_a);
    reflexivity.
Defined.

(** ** Batches *)

Lemma crawl_file_locator F local_obj :
  CrawledObject.id (crawl_file F local_obj) = DocObject.id local_obj
  ∧ CrawledObject.source (crawl_file F local_obj) = DocObject.source local_obj
  ∧ CrawledObject.source_type (crawl_file F local_obj) = FILE
  ∧ CrawledObject.is_chunk (crawl_file F local_obj) = false.
Proof.
  unfold crawl_file.
  destruct (crawl_file_try F local_obj) as [doc|err] eqn:Htry; [|done].
  by apply crawl_file_try_ok in Htry as (t & title & ->).
Qed.

Lemma crawled_locator B d url_obj :
  CrawledObject.id (crawled B d url_obj) = DocObject.id url_obj
  ∧ CrawledObject.source (crawled B d url_obj) = DocObject.source url_obj
  ∧ CrawledObject.source_type (crawled B d url_obj) = WEB
  ∧ CrawledObject.is_chunk (crawled B d url_obj) = false.
Proof.
  by destruct (crawled_cases B d url_obj) as [(t & title & ->)|(err & ->)].
Qed.

Lemma to_crawled_url_objs_lookup B d uuid4 url_list i url :
  url_list !! i = Some url →
  ∃ r, to_crawled_url_objs B d uuid4 url_list !! i = Some r
       ∧ CrawledObject.id r = uuid4 i
       ∧ CrawledObject.source r = url
       ∧ CrawledObject.source_type r = WEB
       ∧ CrawledObject.is_chunk r = false.
Proof.
  intros Hi. unfold to_crawled_url_objs.
  assert (Ho : imap (λ i url, DocObject.mk (uuid4 i) url) url_list !! i
               = Some (DocObject.mk (uuid4 i) url))
    by (by rewrite list_lookup_imap, Hi).
  eexists. split; [by apply crawl_urls_lookup|]. apply crawled_locator.
Qed.

Lemma to_crawled_local_objs_lookup F uuid4 file_list i file :
  file_list !! i = Some file →
  ∃ r, to_crawled_local_objs F uuid4 file_list !! i = Some r
       ∧ CrawledObject.id r = uuid4 i
       ∧ CrawledObject.source r = file
       ∧ CrawledObject.source_type r = FILE
       ∧ CrawledObject.is_chunk r = false.
Proof.
  intros Hi. unfold to_crawled_local_objs. eexists. split.
  - change (map (crawl_file F) ?l) with (crawl_file F <$> l).
    by rewrite list_lookup_fmap, list_lookup_imap, Hi.
  - apply (crawl_file_locator F (DocObject.mk (uuid4 i) file)).
Qed.

Lemma ingestion_lengths B d F uuid4 inputs :
  length (to_crawled_url_objs B d uuid4 inputs) = length inputs
  ∧ length (to_crawled_local_objs F uuid4 inputs) = length inputs
  ∧ length (to_crawled_text uuid4 inputs) = length inputs.
Proof.
  unfold to_crawled_url_objs, to_crawled_local_objs.
  rewrite to_crawled_text_imap, crawl_urls_length, length_map, !length_imap.
  done.
Qed.

(** Each ingestion entry point gives one record per input, in the order of
    the inputs: record [i] has the [i]-th identifier drawn, the [i]-th
    input as source (the word text for a text), the source type of the
    entry point, and is not a chunk. *)
Theorem ingestion_one_record_per_input (uuid4 : nat -> string) :
  (∀ (B : Browser) (d : driver B) (url_list : list string),
     length (to_crawled_url_objs B d uuid4 url_list) = length url_list
     ∧ ∀ i url, url_list !! i = Some url →
         ∃ r, to_crawled_url_objs B d uuid4 url_list !! i = Some r
              ∧ CrawledObject.id r = uuid4 i
              ∧ CrawledObject.source r = url
              ∧ CrawledObject.source_type r = WEB
              ∧ CrawledObject.is_chunk r = false)
  ∧ (∀ (F : FileSystem) (file_list : list string),
       length (to_crawled_local_objs F uuid4 file_list) = length file_list
       ∧ ∀ i file, file_list !! i = Some file →
           ∃ r, to_crawled_local_objs F uuid4 file_list !! i = Some r
                ∧ CrawledObject.id r = uuid4 i
                ∧ CrawledObject.source r = file
                ∧ CrawledObject.source_type r = FILE
                ∧ CrawledObject.is_chunk r = false)
  ∧ (∀ (text_list : list string),
       length (to_crawled_text uuid4 text_list) = length text_list
       ∧ ∀ i txt, text_list !! i = Some txt →
           to_crawled_text uuid4 text_list !! i
           = Some (CrawledObject.mk (uuid4 i) "text" (Some txt) ∅
                     false false None TEXT)).
Proof.
  split_and!.
  - intros B d url_list. split.
    + apply (ingestion_lengths B d bare_files uuid4 url_list).
    + intros i url. apply to_crawled_url_objs_lookup.
  - intros F file_list. split.
    + apply (ingestion_lengths (table_browser pages_a) () F uuid4 file_list).
    + intros i file. apply to_crawled_local_objs_lookup.
  - intros text_list. rewrite to_crawled_text_imap. split.
    + apply length_imap.
    + intros i txt Hi. by rewrite list_lookup_imap, Hi.
Qed.

(** When the identifiers drawn for a batch are pairwise different, so are
    the ids of its records. *)
Theorem ingestion_ids_distinct
    (uuid4 : nat -> string) (B : Browser) (d : driver B) (F : FileSystem)
    (inputs : list string) :
  (∀ i j, (i < length inputs)%nat → (j < length inputs)%nat →
          uuid4 i = uuid4 j → i = j) →
  NoDup (CrawledObject.id <$> to_crawled_url_objs B d uuid4 inputs)
  ∧ NoDup (CrawledObject.id <$> to_crawled_local_objs F uuid4 inputs)
  ∧ NoDup (CrawledObject.id <$> to_crawled_text uuid4 inputs).
Proof.
  intros Hinj.
  destruct (ingestion_lengths B d F uuid4 inputs) as (Lurl & Lfile & Ltext).
  assert (Hgen : ∀ rs : list CrawledObject.t,
            length rs = length inputs →
            (∀ i x, inputs !! i = Some x →
                    ∃ r, rs !! i = Some r ∧ CrawledObject.id r = uuid4 i) →
            NoDup (CrawledObject.id <$> rs)).
  { intros rs Hlen Hid. apply NoDup_alt. intros i j x Hi Hj.
    rewrite list_lookup_fmap in Hi, Hj.
    destruct (rs !! i) as [ri|] eqn:Hri; [|done].
    destruct (rs !! j) as [rj|] eqn:Hrj; [|done].
    simpl in *. simplify_eq.
    assert (Hi' : (i < length inputs)%nat)
      by (rewrite <- Hlen; by eapply lookup_lt_Some).
    assert (Hj' : (j < length inputs)%nat)
      by (rewrite <- Hlen; by eapply lookup_lt_Some).
    destruct (lookup_lt_is_Some_2 inputs i Hi') as [xi Hxi].
    destruct (lookup_lt_is_Some_2 inputs j Hj') as [xj Hxj].
    destruct (Hid i xi Hxi) as (r1 & Hr1 & Hid1).
    destruct (Hid j xj Hxj) as (r2 & Hr2 & Hid2).
    simplify_eq. apply Hinj; [done|done|congruence]. }
  split_and!; (apply Hgen; [done|]); intros i x Hx.
  - destruct (to_crawled_url_objs_lookup B d uuid4 inputs i x Hx)
      as (r & ? & ? & _). eauto.
  - destruct (to_crawled_local_objs_lookup F uuid4 inputs i x Hx)
      as (r & ? & ? & _). eauto.
  - rewrite to_crawled_text_imap, list_lookup_imap, Hx. simpl. eauto.
Qed.

(** Identifiers for the examples: the draws are numbered. *)
Definition numbered_ids (i : nat) : string := "id-" +:+ PyStr.str_of_nat i.

Lemma ingestion_ids_distinct_witness :
  NoDup (CrawledObject.id
           <$> to_crawled_url_objs (table_browser pages_a) () numbered_ids
                 ["http://a.test"; "http://b.test"])
  ∧ NoDup (CrawledObject.id
             <$> to_crawled_local_objs bare_files numbered_ids
                   ["http://a.test"; "http://b.test"])
  ∧ NoDup (CrawledObject.id
             <$> to_crawled_text numbered_ids ["http://a.test"; "http://b.test"]).
Proof.
  apply (ingestion_ids_distinct numbered_ids (table_browser pages_a) () bare_files
           ["http://a.test"; "http://b.test"]).
  intros i j _ _ Hij. apply str_of_nat_inj.
  by apply (inj (String.app "id-")) in Hij.
Defined.

(** ** Records and dictionaries *)

Definition record_keys : list string :=
  ["id"; "source"; "content"; "metadata"; "is_chunk"; "is_error";
   "error_message"; "source_type"].

(** [from_dict] undoes [to_dict]; a record [from_dict] builds has its eight
    fields as the dictionary holds them (other keys are ignored); and a
    dictionary that lacks one of the eight keys raises [KeyError] on a key
    it lacks. *)
Theorem from_dict_to_dict_round_trip :
  (∀ r, from_dict (to_dict r) = Ok r)
  ∧ (∀ data r, from_dict data = Ok r → to_dict r ⊆ data)
  ∧ (∀ data k, k ∈ record_keys → data !! k = None →
       ∃ k', from_dict data = Raise ("KeyError: " +:+ k') ∧ data !! k' = None).
Proof.
  split_and!.
  - intros r. by destruct r.
  - intros data r. unfold from_dict, getitem.
    destruct (data !! "id") as [v1|] eqn:H1; [|done].
    destruct (data !! "source") as [v2|] eqn:H2; [|done].
    destruct (data !! "content") as [v3|] eqn:H3; [|done].
    destruct (data !! "metadata") as [v4|] eqn:H4; [|done].
    destruct (data !! "is_chunk") as [v5|] eqn:H5; [|done].
    destruct (data !! "is_error") as [v6|] eqn:H6; [|done].
    destruct (data !! "error_message") as [v7|] eqn:H7; [|done].
    destruct (data !! "source_type") as [v8|] eqn:H8; [|done].
    cbn [bind].
    destruct v1; try done. destruct v2; try done. destruct v3; try done.
    destruct v4; try done. destruct v5; try done. destruct v6; try done.
    destruct v7; try done. destruct v8; try done.
    simpl. intros [= <-]. apply map_subseteq_spec. intros k v.
    unfold to_dict. simpl.
    rewrite !lookup_insert_Some, lookup_empty.
    intros [[<- <-]|[_ [[<- <-]|[_ [[<- <-]|[_ [[<- <-]|[_ [[<- <-]|[_
             [[<- <-]|[_ [[<- <-]|[_ [[<- <-]|[_ ?]]]]]]]]]]]]]]]]; done.
  - intros data k Hk Hnone. unfold from_dict, getitem.
    destruct (data !! "id") eqn:H1; [|by exists "id"].
    destruct (data !! "source") eqn:H2; [|by exists "source"].
    destruct (data !! "content") eqn:H3; [|by exists "content"].
    destruct (data !! "metadata") eqn:H4; [|by exists "metadata"].
    destruct (data !! "is_chunk") eqn:H5; [|by exists "is_chunk"].
    destruct (data !! "is_error") eqn:H6; [|by exists "is_error"].
    destruct (data !! "error_message") eqn:H7; [|by exists "error_message"].
    destruct (data !! "source_type") eqn:H8; [|by exists "source_type"].
    exfalso. unfold record_keys in Hk.
    repeat (apply elem_of_cons in Hk as [->|Hk]; [congruence|]).
    by apply elem_of_nil in Hk.
Qed.

(** ** The browser session *)

(** [crawl_urls] sends the session to every locator once, in the order of
    the locators, failed fetches included: the session it leaves is the one
    these fetches lead to. *)
Theorem crawl_urls_visits_in_order
    (B : Browser) (d : driver B) (url_objects : list DocObject.t) :
  (crawl_urls_run B d url_objects).1
  = foldl (λ d url_obj, (driver_get B d (DocObject.source url_obj)).1) d url_objects.
Proof.
  revert d. induction url_objects as [|o l IH]; intros d; [done|].
  rewrite crawl_urls_run_cons. cbn [foldl]. apply IH.
Qed.

(** ** Ranking: failures and bounds *)

Lemma url_to_id_mapping_nonempty urls u : u ∈ urls → url_to_id_mapping urls ≠ [].
Proof.
  intros Hu Hnil. destruct (last_id_is_Some urls u Hu) as [j Hj].
  rewrite <- url_to_id_mapping_get, Hnil in Hj. done.
Qed.

Lemma foldM_collect_step_raises mapping urls st u :
  mapping ≠ [] → u ∈ urls →
  CrawledObject.is_error u = false → CrawledObject.content u = None →
  foldM (collect_step mapping) urls st
  = Raise "TypeError: argument of type 'NoneType' is not iterable".
Proof.
  intros Hm Hu He Hc. revert st.
  induction urls as [|x urls IH]; intros [ns es]; [by apply elem_of_nil in Hu|].
  cbn [foldM]. unfold collect_step at 1.
  destruct (CrawledObject.is_error x) eqn:Hex.
  - cbn [bind]. apply IH. apply elem_of_cons in Hu as [->|?]; [congruence|done].
  - destruct (CrawledObject.content x) as [c|] eqn:Hcx.
    + rewrite <- Hcx, (foldM_edges _ _ c) by done. cbn [bind]. apply IH.
      apply elem_of_cons in Hu as [->|?]; [congruence|done].
    + destruct mapping as [|kv m]; [done|]. done.
Qed.

(** A batch with a non-error record that has no content makes
    [get_candidates_websites] raise the [TypeError] of the substring test,
    whatever the ranking and [top_k]. *)
Theorem get_candidates_websites_raises_without_content
    (pagerank : DiGraph -> Result (list (string * Q)))
    (urls : list CrawledObject.t) (top_k : Z) (u : CrawledObject.t) :
  u ∈ urls →
  CrawledObject.is_error u = false →
  CrawledObject.content u = None →
  get_candidates_websites pagerank urls top_k
  = Raise "TypeError: argument of type 'NoneType' is not iterable".
Proof.
  intros Hu He Hc. unfold get_candidates_websites, build_graph.
  rewrite (foldM_collect_step_raises _ urls _ u); try done.
  by eapply url_to_id_mapping_nonempty.
Qed.

Definition blank_record : CrawledObject.t :=
  CrawledObject.mk "n" "http://s.test/n" None ∅ false false None WEB.

Lemma get_candidates_websites_raises_without_content_witness :
  get_candidates_websites indegree_rank (batch_abc ++ [blank_record]) 2
  = Raise "TypeError: argument of type 'NoneType' is not iterable".
Proof.
  apply (get_candidates_websites_raises_without_content indegree_rank
           (batch_abc ++ [blank_record]) 2 blank_record); [|done|done].
  apply elem_of_app. right. by left.
Defined.

Lemma touch_node_keys_NoDup (ns : list (string * gmap string Value)) n :
  NoDup (odict_keys ns) → NoDup (odict_keys (touch_node ns n)).
Proof.
  intros Hnd. unfold touch_node. destruct (odict_get ns n) eqn:Hg; [done|].
  unfold odict_keys in *. rewrite fmap_app. apply NoDup_app. split_and!; [done| |].
  - intros x Hx ->%list_elem_of_singleton. by apply odict_get_None in Hg.
  - apply NoDup_singleton.
Qed.

Lemma build_graph_keys_NoDup urls g :
  build_graph urls = Ok g → NoDup (odict_keys (nodes g)).
Proof.
  unfold build_graph.
  destruct (foldM (collect_step (url_to_id_mapping urls)) urls ([], []))
    as [[ns es]|] eqn:Hf; [|done].
  cbn [bind fst snd]. intros [= <-].
  assert (Hn : NoDup (odict_keys (nodes (add_nodes_from empty_graph ns)))).
  { clear Hf. induction ns as [|n ns IH] using rev_ind; [apply NoDup_nil_2|].
    rewrite add_nodes_from_snoc. cbn [add_node nodes].
    by apply odict_set_keys_NoDup. }
  clear Hf. generalize dependent (add_nodes_from empty_graph ns). intros g0 Hn.
  induction es as [|e es IH] using rev_ind; [done|].
  rewrite add_edges_from_snoc. cbn [add_edge nodes].
  by do 2 apply touch_node_keys_NoDup.
Qed.

(** What [get_candidates_websites] returns is made of non-error records of
    the batch, no id twice, and at most [top_k] of them when [top_k] is not
    negative; this holds whenever it returns, for a ranking that scores
    each node of the graph once, in node order, when it gives scores. *)
Theorem get_candidates_websites_result_bounds
    (pagerank : DiGraph -> Result (list (string * Q)))
    (urls : list CrawledObject.t) (top_k : Z) (res : list CrawledObject.t) :
  (∀ g pr, pagerank g = Ok pr → pr.*1 = odict_keys (nodes g)) →
  get_candidates_websites pagerank urls top_k = Ok res →
  (∀ r, r ∈ res → r ∈ urls ∧ CrawledObject.is_error r = false)
  ∧ NoDup (CrawledObject.id <$> res)
  ∧ (0 ≤ top_k → Z.of_nat (length res) ≤ top_k).
Proof.
  intros Hpr Hres.
  assert (Hc : ∀ u, u ∈ urls → CrawledObject.is_error u = false →
                    CrawledObject.content u ≠ None).
  { intros u Hu He Hnone. unfold get_candidates_websites, build_graph in Hres.
    rewrite (foldM_collect_step_raises _ urls _ u) in Hres; try done.
    by eapply url_to_id_mapping_nonempty. }
  destruct (build_graph_spec urls Hc) as (g & _ & Hg & _).
  destruct (pagerank g) as [pr|err] eqn:Hrank.
  2:{ unfold get_candidates_websites in Hres. rewrite Hg in Hres.
      cbn [bind] in Hres. by rewrite Hrank in Hres. }
  rewrite (get_candidates_websites_ranked pagerank urls top_k g pr Hc Hg Hrank
             (Hpr g pr Hrank)) in Hres.
  injection Hres as <-. rewrite omap_fst.
  set (top := (PyStr.slice_to (sorted_desc pr) top_k).*1).
  assert (Htop : NoDup top).
  { unfold top, PyStr.slice_to.
    assert (Hnd : NoDup (sorted_desc pr).*1).
    { rewrite sorted_desc_Permutation, (Hpr g pr Hrank).
      by eapply build_graph_keys_NoDup. }
    destruct (0 <=? top_k); rewrite fmap_take;
      (eapply sublist_NoDup; [exact Hnd|apply sublist_take]). }
  split_and!.
  - intros r (k & _ & Hr)%list_elem_of_omap.
    apply last_record_Some in Hr as [Hin _].
    by apply list_elem_of_filter in Hin as [? ?].
  - clear -Htop. induction top as [|k top IH]; [apply NoDup_nil_2|].
    apply NoDup_cons in Htop as [Hk Htop]. cbn [omap list_omap].
    destruct (last_record (non_error urls) k) as [r|] eqn:Hr; [|by apply IH].
    change (NoDup (CrawledObject.id r
                   :: (CrawledObject.id <$> omap (last_record (non_error urls)) top))).
    apply NoDup_cons. split; [|by apply IH].
    apply last_record_Some in Hr as [_ <-].
    intros (r' & Hid & (k' & Hk' & Hr')%list_elem_of_omap)%list_elem_of_fmap.
    apply last_record_Some in Hr' as [_ <-]. apply Hk. by rewrite Hid.
  - intros Hk.
    assert (length (omap (last_record (non_error urls)) top) ≤ length top)%nat.
    { clear. induction top as [|k top IH]; [done|]. cbn [omap list_omap].
      destruct (last_record _ k); simpl; lia. }
    assert (length top ≤ Z.to_nat top_k)%nat.
    { unfold top, PyStr.slice_to. destruct (Z.leb_spec 0 top_k); [|lia].
      rewrite length_fmap, length_take. lia. }
    lia.
Qed.

Lemma get_candidates_websites_result_bounds_witness :
  (∀ r, r ∈ [web_record "B" "http://s.test/b" "Go on to http://s.test/c";
             web_record "C" "http://s.test/c" "The end"] →
        r ∈ batch_abc ∧ CrawledObject.is_error r = false)
  ∧ NoDup (CrawledObject.id
             <$> [web_record "B" "http://s.test/b" "Go on to http://s.test/c";
                  web_record "C" "http://s.test/c" "The end"])
  ∧ (0 ≤ 2 →
     Z.of_nat (length [web_record "B" "http://s.test/b" "Go on to http://s.test/c";
                       web_record "C" "http://s.test/c" "The end"]) ≤ 2).
Proof.
  apply (get_candidates_websites_result_bounds indegree_rank batch_abc 2).
  - exact indegree_rank_keys.
  - by vm_compute.
Defined.

(** ** Chunker: what is returned *)

(** The records [chunk] splits. *)
Definition splittable (r : CrawledObject.t) : bool :=
  negb (CrawledObject.is_error r) && negb (CrawledObject.is_chunk r)
  && bool_decide (CrawledObject.content r ≠ None).

Lemma chunk_step_documents split_text d :
  (chunk_step split_text ([], []) d).2
  = if splittable d
    then chunk_document d <$> split_text (default "" (CrawledObject.content d))
    else [].
Proof.
  unfold splittable.
  destruct (CrawledObject.is_error d) eqn:He.
  { unfold chunk_step. by rewrite He. }
  destruct (CrawledObject.content d) as [c|] eqn:Hc.
  2:{ unfold chunk_step. rewrite He, Hc. simpl. by rewrite andb_false_r. }
  destruct (CrawledObject.is_chunk d) eqn:Hk.
  { unfold chunk_step. by rewrite He, Hc, Hk. }
  rewrite (chunk_step_split split_text d c) by done. cbn [snd negb andb].
  rewrite (bool_decide_eq_true_2 (Some c ≠ None)) by done. done.
Qed.

(** The list [chunk] returns: for each record of the input that is not an
    error, not a chunk and has content, in input order, one document per
    piece of its content, in piece order, holding the piece and a metadata
    mapping with the record's source under the one key source.  The record
    list [docs] holds these pieces' records and the records kept as they
    were. *)
Theorem chunk_returns_documents_of_pieces
    (split_text : string -> list string) (doc_objs : list CrawledObject.t) :
  chunk split_text doc_objs
  = filter (λ r, splittable r = true) doc_objs
      ≫= (λ r, (λ txt, {| page_content := txt;
                          doc_metadata := {[ "source" := CrawledObject.source r ]} |})
                 <$> split_text (default "" (CrawledObject.content r)))
  ∧ length (chunk_docs split_text doc_objs)
    = (length (chunk split_text doc_objs)
       + length (filter (λ r, CrawledObject.is_error r = false
                              ∧ CrawledObject.content r ≠ None
                              ∧ CrawledObject.is_chunk r = true) doc_objs))%nat.
Proof.
  split.
  - induction doc_objs as [|d l IH]; [done|].
    rewrite chunk_cons, chunk_step_documents, IH, filter_cons.
    destruct (splittable d); [by rewrite decide_True|by rewrite decide_False].
  - induction doc_objs as [|d l IH]; [done|].
    rewrite chunk_docs_cons, chunk_cons, filter_cons, !length_app, IH.
    unfold chunk_step.
    destruct (CrawledObject.is_error d) eqn:He.
    { rewrite decide_False by (intros (? & _); done). simpl. lia. }
    destruct (CrawledObject.content d) as [c|] eqn:Hc.
    2:{ rewrite decide_False by (intros (_ & ? & _); done). simpl. lia. }
    destruct (CrawledObject.is_chunk d) eqn:Hk.
    + rewrite decide_True by done. simpl. lia.
    + rewrite decide_False by (intros (_ & _ & ?); done).
      rewrite foldl_chunk_piece. simpl. rewrite !length_map. lia.
Qed.

(** Chunking what [to_crawled_text] builds: one document per piece of each
    text, in order, with the word text as source. *)
Theorem chunk_of_crawled_text
    (split_text : string -> list string) (uuid4 : nat -> string)
    (text_list : list string) :
  chunk split_text (to_crawled_text uuid4 text_list)
  = text_list
      ≫= (λ t, (λ txt, {| page_content := txt;
                          doc_metadata := {[ "source" := "text" ]} |})
                 <$> split_text t).
Proof.
  rewrite to_crawled_text_imap.
  assert (Hgen : ∀ n,
    chunk split_text
      (imap (λ i txt, CrawledObject.mk (uuid4 (n + i)%nat) "text" (Some txt) ∅
                        false false None TEXT) text_list)
    = text_list
        ≫= (λ t, (λ txt, {| page_content := txt;
                            doc_metadata := {[ "source" := "text" ]} |})
                   <$> split_text t)).
  { induction text_list as [|t l IH]; intros n; [done|].
    cbn [imap]. rewrite chunk_cons, bind_cons.
    rewrite (chunk_step_split split_text _ t) by done. cbn [snd]. f_equal.
    rewrite <- (IH (S n)). f_equal. apply imap_ext. intros i x _. simpl.
    by rewrite Nat.add_succ_r. }
  apply (Hgen 0%nat).
Qed.

(** *** Chunk ids across parents *)

Lemma underscore_prefix_inj (a b x y : string) :
  string_mem "_" a = false → string_mem "_" b = false →
  a +:+ "_" +:+ x = b +:+ "_" +:+ y → a = b.
Proof.
  revert b. induction a as [|c a IH]; intros [|c' b] Ha Hb Heq; try done.
  - cbn [string_mem] in Hb. apply orb_false_iff in Hb as [Hc _].
    injection Heq as <- _. done.
  - cbn [string_mem] in Ha. apply orb_false_iff in Ha as [Hc _].
    injection Heq as -> _. done.
  - cbn [string_mem] in Ha, Hb.
    apply orb_false_iff in Ha as [_ Ha]. apply orb_false_iff in Hb as [_ Hb].
    injection Heq as -> Heq. f_equal. by apply IH.
Qed.

Lemma chunk_docs_fresh split_text l r :
  (∀ d, d ∈ l → CrawledObject.is_chunk d = false) →
  r ∈ chunk_docs split_text l →
  ∃ d i txt, d ∈ l ∧ r = chunk_record d i txt.
Proof.
  induction l as [|d l IH]; intros Hl; [by intros ?%elem_of_nil|].
  rewrite chunk_docs_cons. intros [Hin|Hin]%elem_of_app.
  - revert Hin. unfold chunk_step.
    destruct (CrawledObject.is_error d), (CrawledObject.content d) as [c|];
      simpl; try by intros ?%elem_of_nil.
    rewrite (Hl d) by by left. rewrite foldl_chunk_piece. simpl.
    intros (it & -> & _)%list_elem_of_fmap. exists d, it.1, it.2.
    split; [by left|done].
  - destruct IH as (d' & i & txt & ? & ->); [|done|].
    + intros ??. apply Hl. by right.
    + exists d', i, txt. split; [by right|done].
Qed.

(** When no record of the input is a chunk, the ids of the input are
    pairwise different and none contains an underscore (as the identifiers
    [uuid4] gives), the chunk records have pairwise different ids. *)
Theorem chunk_ids_distinct_across_parents
    (split_text : string -> list string) (doc_objs : list CrawledObject.t) :
  (∀ d, d ∈ doc_objs → CrawledObject.is_chunk d = false) →
  (∀ d, d ∈ doc_objs → PyStr.contains "_" (CrawledObject.id d) = false) →
  NoDup (CrawledObject.id <$> doc_objs) →
  NoDup (CrawledObject.id <$> chunk_docs split_text doc_objs).
Proof.
  induction doc_objs as [|d l IH]; intros Hk Hu Hnd; [apply NoDup_nil_2|].
  rewrite fmap_cons in Hnd. apply NoDup_cons in Hnd as [Hd Hnd].
  rewrite chunk_docs_cons, fmap_app. apply NoDup_app. split_and!.
  - unfold chunk_step.
    destruct (CrawledObject.is_error d), (CrawledObject.content d) as [c|];
      simpl; try apply NoDup_nil_2.
    rewrite (Hk d) by by left. rewrite foldl_chunk_piece. simpl.
    rewrite (imap_pair_fmap (chunk_record d)). apply NoDup_chunk_ids.
  - intros x (r1 & -> & Hr1)%list_elem_of_fmap (r2 & Hid & Hr2)%list_elem_of_fmap.
    destruct (chunk_docs_fresh split_text [d] r1) as (d1 & i1 & t1 & Hd1 & ->).
    { intros ? ->%list_elem_of_singleton. apply Hk. by left. }
    { by rewrite chunk_docs_cons, app_nil_r. }
    apply list_elem_of_singleton in Hd1 as ->.
    destruct (chunk_docs_fresh split_text l r2) as (d2 & i2 & t2 & Hd2 & ->);
      [intros ??; apply Hk; by right|done|].
    apply Hd. apply list_elem_of_fmap. exists d2. split; [|done].
    simpl in Hid.
    apply (underscore_prefix_inj _ _ (PyStr.str_of_nat i1) (PyStr.str_of_nat i2));
      [rewrite <- contains_char; apply Hu; by left
      |rewrite <- contains_char; apply Hu; by right|done].
  - apply IH; [intros ??; apply Hk; by right|intros ??; apply Hu; by right|done].
Qed.

Lemma chunk_ids_distinct_across_parents_witness :
  NoDup (CrawledObject.id <$> chunk_docs split_in_three batch_abc).
Proof.
  apply (chunk_ids_distinct_across_parents split_in_three batch_abc).
  - intros d Hd. unfold batch_abc in Hd.
    repeat (apply elem_of_cons in Hd as [->|Hd]; [done|]).
    by apply elem_of_nil in Hd.
  - intros d Hd. unfold batch_abc in Hd.
    repeat (apply elem_of_cons in Hd as [->|Hd]; [done|]).
    by apply elem_of_nil in Hd.
  - by apply (bool_decide_unpack _).
Defined.

(** ** Logging: [LogContext._merge_extra]

    The loader logs through [LogContext.info] and [LogContext.error], which
    hand [_merge_extra(context, kwargs)] to the logger as [extra] and pass
    what is left of [kwargs] on. *)

(** A Python value, as far as [_merge_extra] looks at it: a dictionary or
    anything else. *)
#[warnings="-register-all"]
Inductive PyValue :=
| PyAtom (repr : string)
| PyDict (items : list (string * PyValue)).

(** [del d[k]] *)
Definition odict_del {V} (d : odict V) (k : string) : odict V :=
  filter (λ kv, kv.1 ≠ k) d.

(** [d.update(other)] *)
Definition odict_update {V} (d other : odict V) : odict V :=
  foldl (λ d kv, odict_set d kv.1 kv.2) d other.

(** One iteration of the loop over [list(kwargs.keys())]. *)
Definition merge_kwarg (st : odict PyValue * odict PyValue) (k : string)
    : Result (odict PyValue * odict PyValue) :=
  if String.eqb k "exc_info" then Ok st
  else
    match odict_get st.2 k with
    | Some v => Ok (odict_set st.1 k v, odict_del st.2 k)
    | None => Raise ("KeyError: " +:+ k)
    end.

(** [_merge_extra]: the dictionary it returns and [kwargs] as it leaves it. *)
Definition _merge_extra (context : option (odict PyValue)) (kwargs : odict PyValue)
    : Result (odict PyValue * odict PyValue) :=
  let extra := [("context", PyDict (default [] context))] in
  let user_extra := odict_get kwargs "extra" in
  let kwargs := odict_del kwargs "extra" in
  let extra :=
    match user_extra with
    | Some (PyDict items) => odict_update extra items
    | _ => extra
    end in
  foldM merge_kwarg (odict_keys kwargs) (extra, kwargs).

Lemma odict_get_del {V} (d : list (string * V)) k k' :
  odict_get (odict_del d k) k' = if String.eqb k k' then None else odict_get d k'.
Proof.
  unfold odict_del. induction d as [|[k0 v0] d IH]; simpl.
  - by destruct (String.eqb k k').
  - rewrite filter_cons. simpl. case_decide as Hk0.
    + simpl. rewrite IH. destruct (String.eqb_spec k0 k') as [->|]; [|done].
      by destruct (String.eqb_spec k k').
    + rewrite IH. subst k0. destruct (String.eqb_spec k k'); [done|done].
Qed.

(** The loop, in closed form: every key but exc_info moves to [extra]. *)
Lemma foldM_merge_kwarg (kwargs : list (string * PyValue)) ks extra done_ks :
  NoDup ks →
  (∀ k, k ∈ ks → (k ∉ done_ks) ∧ is_Some (odict_get kwargs k)) →
  foldM merge_kwarg ks
    (extra, filter (λ kv, kv.1 ∉ done_ks ∨ kv.1 = "exc_info") kwargs)
  = Ok (foldl (λ e k, if String.eqb k "exc_info" then e
                      else odict_set e k (default (PyAtom "") (odict_get kwargs k)))
              extra ks,
        filter (λ kv, kv.1 ∉ done_ks ++ ks ∨ kv.1 = "exc_info") kwargs).
Proof.
  revert extra done_ks. induction ks as [|k ks IH]; intros extra done_ks Hnd Hks.
  - cbn [foldM foldl]. by rewrite app_nil_r.
  - apply NoDup_cons in Hnd as [Hk Hnd]. cbn [foldM foldl].
    destruct (Hks k) as [Hkd [v Hv]]; [by left|].
    assert (Hstep : ∀ (l : list (string * PyValue)),
      filter (λ kv, kv.1 ∉ done_ks ++ k :: ks ∨ kv.1 = "exc_info") l
      = filter (λ kv, kv.1 ∉ (done_ks ++ [k]) ++ ks ∨ kv.1 = "exc_info") l).
    { intros l. by rewrite <- app_assoc. }
    rewrite Hstep. unfold merge_kwarg at 1. cbn [fst snd].
    destruct (String.eqb_spec k "exc_info") as [->|Hne]; cbn [bind].
    + rewrite <- IH; [|done|].
      * f_equal. f_equal. apply list_filter_iff. intros kv.
        rewrite elem_of_app, list_elem_of_singleton.
        destruct (decide (kv.1 = "exc_info")); tauto.
      * intros k' Hk'. destruct (Hks k') as [? ?]; [by right|]. split; [|done].
        rewrite elem_of_app, list_elem_of_singleton.
        intros [?| ->]; done.
    + assert (Hget : odict_get
                (filter (λ kv, kv.1 ∉ done_ks ∨ kv.1 = "exc_info") kwargs) k
                = Some v).
      { clear -Hv Hkd. induction kwargs as [|[k0 v0] d IHd]; [done|].
        rewrite filter_cons. simpl in *.
        destruct (String.eqb_spec k0 k) as [->|Hk0].
        - rewrite decide_True by (left; done). simpl.
          by rewrite String.eqb_refl.
        - case_decide; simpl; [|by apply IHd].
          destruct (String.eqb_spec k0 k); [done|by apply IHd]. }
      rewrite Hget, Hv. cbn [bind default].
      rewrite <- IH; [|done|].
      * f_equal. f_equal. unfold odict_del. rewrite list_filter_filter.
        apply list_filter_iff. intros kv.
        rewrite elem_of_app, list_elem_of_singleton.
        destruct (decide (kv.1 = "exc_info")) as [Heq|]; [|tauto].
        split; [tauto|]. intros _. split; [congruence|by right].
      * intros k' Hk'. destruct (Hks k') as [? ?]; [by right|]. split; [|done].
        rewrite elem_of_app, list_elem_of_singleton.
        intros [?| ->]; done.
Qed.

Lemma odict_get_moved (kwargs : list (string * PyValue)) ks extra k' :
  odict_get
    (foldl (λ e k, if String.eqb k "exc_info" then e
                   else odict_set e k (default (PyAtom "") (odict_get kwargs k)))
           extra ks) k'
  = if decide (k' ∈ ks ∧ k' ≠ "exc_info")
    then Some (default (PyAtom "") (odict_get kwargs k'))
    else odict_get extra k'.
Proof.
  revert extra. induction ks as [|k ks IH]; intros extra; cbn [foldl].
  - rewrite decide_False; [done|]. by intros [?%elem_of_nil _].
  - rewrite IH. destruct (decide (k' ∈ ks ∧ k' ≠ "exc_info")) as [[Hin Hne]|Hn].
    + rewrite decide_True; [done|]. split; [by right|done].
    + destruct (String.eqb_spec k "exc_info") as [->|Hk].
      * rewrite decide_False; [done|].
        intros [[->|?]%elem_of_cons ?]; [done|tauto].
      * rewrite odict_get_set. destruct (String.eqb_spec k k') as [->|Hkk].
        -- rewrite decide_True; [done|]. split; [by left|done].
        -- rewrite decide_False; [done|].
           intros [[->|?]%elem_of_cons ?]; [done|tauto].
Qed.

Lemma odict_update_is_Some {V} (d items : list (string * V)) k :
  is_Some (odict_get (odict_update d items) k)
  ↔ is_Some (odict_get d k) ∨ k ∈ odict_keys items.
Proof.
  unfold odict_update, odict_keys.
  revert d. induction items as [|[k0 v0] items IH]; intros d; cbn [foldl].
  - rewrite fmap_nil. split; [by left|]. by intros [?|?%elem_of_nil].
  - rewrite IH, odict_get_set, fmap_cons, elem_of_cons. simpl.
    destruct (String.eqb_spec k0 k) as [->|Hne].
    + split; [intros _; right; by left|intros _; left; by eexists].
    + split; [tauto|]. intros [?|[?|?]]; [tauto|congruence|tauto].
Qed.

Lemma odict_keys_del {V} (d : list (string * V)) k k' :
  k' ∈ odict_keys (odict_del d k) ↔ k' ∈ odict_keys d ∧ k' ≠ k.
Proof.
  rewrite <- !odict_get_is_Some, odict_get_del.
  destruct (String.eqb_spec k k') as [->|Hne].
  - split; [by intros [? ?]|]. by intros [_ ?].
  - split; [intros ?; split; [done|congruence]|by intros [? _]].
Qed.

Lemma odict_keys_del_NoDup {V} (d : list (string * V)) k :
  NoDup (odict_keys d) → NoDup (odict_keys (odict_del d k)).
Proof.
  intros Hnd. eapply sublist_NoDup; [exact Hnd|].
  unfold odict_keys, odict_del. apply fmap_sublist, sublist_filter.
Qed.

Lemma list_filter_iff_elem {A} (P1 P2 : A → Prop)
    `{!∀ x, Decision (P1 x), !∀ x, Decision (P2 x)} (l : list A) :
  (∀ x, x ∈ l → P1 x ↔ P2 x) → filter P1 l = filter P2 l.
Proof.
  induction l as [|a l IH]; intros Hiff; [done|].
  rewrite !filter_cons, IH by (intros ??; apply Hiff; by right).
  destruct (decide (P1 a)) as [H1|H1].
  - rewrite decide_True; [done|]. apply Hiff; [by left|done].
  - rewrite decide_False; [done|]. intros H2. apply H1, Hiff; [by left|done].
Qed.

(** [_merge_extra] on a dictionary [kwargs] never fails.  It leaves in
    [kwargs] the entry exc_info and nothing else.  The dictionary it
    returns holds every other entry of [kwargs] except extra, with the
    value [kwargs] had (these win over the entries of a dictionary given as
    extra and over the context entry); it always has the key context; and
    it has no key beyond context, the keys of a dictionary given as extra,
    and those keys of [kwargs]. *)
Theorem _merge_extra_moves_kwargs
    (context : option (list (string * PyValue)))
    (kwargs : list (string * PyValue)) :
  NoDup (odict_keys kwargs) →
  ∃ extra kwargs',
    _merge_extra context kwargs = Ok (extra, kwargs')
    ∧ kwargs' = filter (λ kv, kv.1 = "exc_info") kwargs
    ∧ (∀ k v, k ≠ "extra" → k ≠ "exc_info" →
              odict_get kwargs k = Some v → odict_get extra k = Some v)
    ∧ is_Some (odict_get extra "context")
    ∧ (∀ k, is_Some (odict_get extra k) →
            k = "context"
            ∨ (∃ items, odict_get kwargs "extra" = Some (PyDict items)
                        ∧ k ∈ odict_keys items)
            ∨ (k ≠ "extra" ∧ k ≠ "exc_info" ∧ k ∈ odict_keys kwargs)).
Proof.
  intros Hnd. unfold _merge_extra.
  set (extra0 := match odict_get kwargs "extra" with
                 | Some (PyDict items) =>
                     odict_update [("context", PyDict (default [] context))] items
                 | _ => [("context", PyDict (default [] context))]
                 end).
  set (ks := odict_keys (odict_del kwargs "extra")).
  assert (Hks : ∀ k, k ∈ ks ↔ k ∈ odict_keys kwargs ∧ k ≠ "extra")
    by (intros k; apply odict_keys_del).
  assert (Hstart : odict_del kwargs "extra"
            = filter (λ kv, kv.1 ∉ ["extra"] ∨ kv.1 = "exc_info") kwargs).
  { unfold odict_del. apply list_filter_iff. intros kv.
    rewrite list_elem_of_singleton. split; [by left|].
    intros [?| ->]; done. }
  rewrite Hstart, (foldM_merge_kwarg kwargs ks extra0 ["extra"]).
  2:{ by apply odict_keys_del_NoDup. }
  2:{ intros k [Hk Hne]%Hks. split.
      - by intros ?%list_elem_of_singleton.
      - by apply odict_get_is_Some. }
  eexists _, _. split; [reflexivity|]. split_and!.
  - apply list_filter_iff_elem. intros kv Hkv. split; [|by right].
    intros [Hn|?]; [|done]. exfalso. apply Hn.
    destruct (decide (kv.1 = "extra")) as [->|Hne]; [by left|].
    right. apply Hks. split; [|done].
    unfold odict_keys. apply list_elem_of_fmap. by exists kv.
  - intros k v Hk1 Hk2 Hv. rewrite odict_get_moved, decide_True, Hv; [done|].
    split; [|done]. apply Hks. split; [|done].
    apply odict_get_is_Some. by eexists.
  - rewrite odict_get_moved. case_decide; [by eexists|].
    unfold extra0. destruct (odict_get kwargs "extra") as [[?|items]|];
      try (by eexists).
    apply odict_update_is_Some. left. by eexists.
  - intros k. rewrite odict_get_moved. case_decide as Hk.
    + intros _. destruct Hk as [[? ?]%Hks ?]. right. right. done.
    + unfold extra0.
      destruct (odict_get kwargs "extra") as [[?|items]|] eqn:He.
      * cbn [odict_get].
        destruct (String.eqb_spec "context" k); [by left|by intros [? ?]].
      * intros [Hc|Hi]%odict_update_is_Some.
        -- cbn [odict_get] in Hc.
           destruct (String.eqb_spec "context" k); [by left|by destruct Hc].
        -- right. left. by exists items.
      * cbn [odict_get].
        destruct (String.eqb_spec "context" k); [by left|by intros [? ?]].
Qed.

Definition request_kwargs : list (string * PyValue) :=
  [ ("method", PyAtom "GET");
    ("extra", PyDict [("user", PyAtom "u1"); ("method", PyAtom "POST")]);
    ("exc_info", PyAtom "True") ].

Lemma _merge_extra_moves_kwargs_witness :
  ∃ extra kwargs',
    _merge_extra None request_kwargs = Ok (extra, kwargs')
    ∧ kwargs' = filter (λ kv, kv.1 = "exc_info") request_kwargs
    ∧ (∀ k v, k ≠ "extra" → k ≠ "exc_info" →
              odict_get request_kwargs k = Some v → odict_get extra k = Some v)
    ∧ is_Some (odict_get extra "context")
    ∧ (∀ k, is_Some (odict_get extra k) →
            k = "context"
            ∨ (∃ items, odict_get request_kwargs "extra" = Some (PyDict items)
                        ∧ k ∈ odict_keys items)
            ∨ (k ≠ "extra" ∧ k ≠ "exc_info" ∧ k ∈ odict_keys request_kwargs)).
Proof.
  apply (_merge_extra_moves_kwargs None request_kwargs).
  by apply (bool_decide_unpack _).
Defined.

Example _merge_extra_request :
  _merge_extra None request_kwargs
  = Ok ([("context", PyDict []); ("user", PyAtom "u1"); ("method", PyAtom "GET")],
        [("exc_info", PyAtom "True")]).
Proof. reflexivity. Qed.
